(** * ChatRelayBot: the event-relay pipeline of [main.go]

    A shallow embedding of the relay core of [main.go]: the worker pool
    ([NewWorkerPool], [Submit], [Shutdown], [worker]), the two dispatchers
    ([processMention], [processDirectMessage]) and the backend task
    ([processTask]), together with the pieces of the Go standard library
    they call ([strings], [bufio.Scanner], channels).

    Go strings are byte sequences; they are modelled by [string], whose
    characters are the 256 byte values. *)

From Stdlib Require Import String Ascii List ZArith NArith Bool Arith Lia Permutation.
From Stdlib Require DecimalString.
Import ListNotations.

Local Open Scope string_scope.
Local Open Scope list_scope.

(** ** Package [strings] *)

Module strings.

(** [s[n:]] *)
Fixpoint drop (n : nat) (s : string) : string :=
  match n, s with
  | O, _ => s
  | S _, EmptyString => EmptyString
  | S k, String _ s' => drop k s'
  end.

(** [s[:n]] *)
Fixpoint take (n : nat) (s : string) : string :=
  match n, s with
  | O, _ => EmptyString
  | S _, EmptyString => EmptyString
  | S k, String c s' => String c (take k s')
  end.

(** [strings.HasPrefix(s, prefix)] *)
Definition HasPrefix (s prefix : string) : bool := String.prefix prefix s.

(** [strings.TrimPrefix(s, prefix)] *)
Definition TrimPrefix (s prefix : string) : string :=
  if HasPrefix s prefix then drop (String.length prefix) s else s.

(** [strings.Index(s, substr)]: the byte offset of the first occurrence,
    [None] for Go's [-1]. *)
Fixpoint Index (s substr : string) : option nat :=
  if HasPrefix s substr then Some 0
  else match s with
       | EmptyString => None
       | String _ s' => option_map S (Index s' substr)
       end.

(** The loop of [strings.Replace(s, old, new, -1)] for a non-empty [old]:
    find the leftmost occurrence, copy what precedes it, write [new], go on
    behind the occurrence.  Every round consumes at least one byte, so
    [String.length s] rounds are enough. *)
Fixpoint Replace_loop (rounds : nat) (s old new : string) : string :=
  match rounds with
  | O => s
  | S r =>
      match Index s old with
      | None => s
      | Some j => take j s ++ new ++ Replace_loop r (drop (j + String.length old) s) old new
      end
  end.

(** [strings.ReplaceAll(s, old, new)].  Go returns [s] at once when
    [old == new].  With an empty [old] and a non-empty [new] Go writes [new]
    around every UTF-8 sequence; the relay never calls it so (its [new] is
    the empty string and its [old] starts with ["<@"]), and the embedding
    leaves [s] as it is there. *)
Definition ReplaceAll (s old new : string) : string :=
  if String.eqb old new then s
  else if String.eqb old "" then s
  else Replace_loop (String.length s) s old new.

(** The loop of [genSplit(s, sep, len(sep), -1)] for a non-empty [sep]: cut
    behind the leftmost occurrence of [sep], go on with the rest; the rest
    without an occurrence is the last chunk. *)
Fixpoint SplitAfter_loop (rounds : nat) (s sep : string) : list string :=
  match rounds with
  | O => [s]
  | S r =>
      match Index s sep with
      | None => [s]
      | Some m => take (m + String.length sep) s
                  :: SplitAfter_loop r (drop (m + String.length sep) s) sep
      end
  end.

(** [strings.SplitAfter(s, sep)] for a non-empty [sep] (the relay's is
    [". "]). *)
Definition SplitAfter (s sep : string) : list string :=
  SplitAfter_loop (String.length s) s sep.

(** A string from byte values. *)
Definition bytes (l : list nat) : string :=
  string_of_list_ascii (map ascii_of_nat l).

(** [unicode.IsSpace], as the UTF-8 byte sequences of the runes it accepts:
    the six ASCII spaces, U+0085, U+00A0, U+1680, U+2000..U+200A, U+2028,
    U+2029, U+202F, U+205F and U+3000.  Go's decoder accepts only the
    shortest encoding of a rune, so a string starts (or ends) with a space
    rune exactly when it starts (or ends) with one of these sequences. *)
Definition spaces : list string :=
  map bytes
    ([[9]; [10]; [11]; [12]; [13]; [32];
      [194; 133]; [194; 160]; [225; 154; 128]]
     ++ map (fun k => [226; 128; 128 + k]) (seq 0 11)
     ++ [[226; 128; 168]; [226; 128; 169]; [226; 128; 175];
         [226; 129; 159]; [227; 128; 128]]).

(** Width in bytes of the space rune [s] starts with, [0] when it starts
    with none. *)
Definition leading_space (sp : list string) (s : string) : nat :=
  match find (HasPrefix s) sp with
  | Some w => String.length w
  | None => 0
  end.

(** [strings.TrimLeftFunc(s, unicode.IsSpace)] over the sequences [sp]. *)
Fixpoint trim_left (rounds : nat) (sp : list string) (s : string) : string :=
  match rounds with
  | O => s
  | S r =>
      match leading_space sp s with
      | O => s
      | S w => trim_left r sp (drop (S w) s)
      end
  end.

Definition rev (s : string) : string :=
  string_of_list_ascii (List.rev (list_ascii_of_string s)).

Definition TrimLeft (s : string) : string :=
  trim_left (String.length s) spaces s.

(** [strings.TrimRightFunc(s, unicode.IsSpace)]: the same scan from the
    end of the string. *)
Definition TrimRight (s : string) : string :=
  rev (trim_left (String.length s) (map rev spaces) (rev s)).

(** [strings.TrimSpace(s)]: leading, then trailing white space removed. *)
Definition TrimSpace (s : string) : string := TrimRight (TrimLeft s).

End strings.

(** ** [bufio.Scanner] with its default split function [ScanLines] *)

Module bufio.

(** [dropCR]: one trailing carriage return is not part of the line. *)
Definition dropCR (line : string) : string :=
  match strings.rev line with
  | String "013"%char r => strings.rev r
  | _ => line
  end.

(** [MaxScanTokenSize]: the scanner's buffer holds a line and its newline in
    64 KiB; a longer line ends the scan with an error. *)
Definition MaxScanTokenSize : N := 65536.

Definition fits (line : string) : bool :=
  (N.of_nat (String.length line) <? MaxScanTokenSize)%N.

(** The tokens [Scan] yields over the whole of [data]: the lines, without
    their terminators; an unterminated non-empty rest is the last line.
    [cur] holds the bytes of the line read so far. *)
Fixpoint scan (cur data : string) : list string :=
  match data with
  | EmptyString =>
      if String.eqb cur "" then []
      else if fits cur then [dropCR cur] else []
  | String c rest =>
      if Ascii.eqb c "010"%char
      then if fits cur then dropCR cur :: scan "" rest else []
      else scan (cur ++ String c "") rest
  end.

Definition ScanLines (data : string) : list string := scan "" data.

End bufio.

(** ** Wire and event types *)

(** [slackevents.AppMentionEvent], the fields the relay reads. *)
Module AppMentionEvent.
Record t := mk { User : string; Channel : string; Text : string; BotID : string }.
End AppMentionEvent.

(** [slackevents.MessageEvent], the fields the relay reads. *)
Module MessageEvent.
Record t := mk { User : string; Channel : string; Text : string; BotID : string;
                 ChannelType : string }.
End MessageEvent.

Module ChatRequest.
Record t := mk { UserID : string; Query : string; ChannelID : string }.
End ChatRequest.

Module ChatResponse.
Record t := mk { ID : Z; Event : string; Text : string; Status : string;
                 Full : string; Error : string }.
End ChatResponse.

(** What [processTask] reads of an [*http.Response]: the status code (which
    it never looks at), the [Content-Type] header and the body. *)
Module Response.
Record t := mk { StatusCode : Z; ContentType : string; Body : string }.
End Response.

(** The outcome of [http.DefaultClient.Do]: [(nil, err)] or [(resp, nil)]. *)
Inductive DoResult :=
| ConnErr (err : string)
| Resp (resp : Response.t).

(** ** The world of a task

    [processTask] talks to the backend, to the clock and to the Slack sink.
    Its run is a function of an environment and yields the effects in the
    order they happen.  Time is a logical clock in milliseconds that only
    [time.Sleep] advances. *)

Inductive Effect :=
| HttpDo (attempt : nat) (req : ChatRequest.t)
| Sleep (ms : Z)
| PostMessage (channel text : string).

Record Env := {
  (** [json.Unmarshal(data, &msg)] into a fresh [ChatResponse]; [None] when
      it returns an error *)
  json_Unmarshal : string -> option ChatResponse.t;
  (** [json.NewDecoder(body).Decode(&result)] into a fresh [ChatResponse] *)
  json_Decode : string -> option ChatResponse.t;
  (** what the backend answers to the request on the given attempt, while
      the context is alive *)
  backend : ChatRequest.t -> nat -> DoResult;
  (** the instant at which the context is cancelled, if ever *)
  cancelled_at : option Z
}.

Definition M (A : Type) : Type := Z -> A * Z * list Effect.

Definition ret {A} (a : A) : M A := fun now => (a, now, []).

Definition bind {A B} (m : M A) (f : A -> M B) : M B :=
  fun now =>
    let '(a, t1, l1) := m now in
    let '(b, t2, l2) := f a t1 in
    (b, t2, l1 ++ l2).

Declare Scope task_scope.
Delimit Scope task_scope with task.
Notation "x <- m ;; k" := (bind m (fun x => k))
  (at level 61, m at next level, right associativity) : task_scope.
Notation "m ;; k" := (bind m (fun _ => k))
  (at level 61, right associativity) : task_scope.
Local Open Scope task_scope.

(** [<-ctx.Done()] is ready *)
Definition ctx_done (E : Env) : M bool :=
  fun now =>
    (match cancelled_at E with Some t => (t <=? now)%Z | None => false end, now, []).

(** [time.Sleep(d)]: not interruptible by the context *)
Definition sleep (ms : Z) : M unit :=
  fun now => (tt, (now + ms)%Z, [Sleep ms]).

(** [http.DefaultClient.Do(req)] with a request built by
    [http.NewRequestWithContext(ctx, ...)]: a cancelled context fails the
    call. *)
Definition http_Do (E : Env) (attempt : nat) (req : ChatRequest.t) : M DoResult :=
  d <- ctx_done E ;;
  fun now =>
    (if d then ConnErr "context canceled" else backend E req attempt,
     now, [HttpDo attempt req]).

(** [api.PostMessageContext(ctx, channel, slack.MsgOptionText(text, false))];
    its results are discarded by every caller. *)
Definition PostMessageContext (channel text : string) : M unit :=
  fun now => (tt, now, [PostMessage channel text]).

(** ** [processTask] *)

(** The retry loop [for attempt := 0; attempt < 3; attempt++].  [last] is
    the pair [(resp, err)] as the previous round left it, [None] for the
    two [nil]s before the first round; [rounds] is [3 - attempt]. *)
Fixpoint retry_loop (E : Env) (req : ChatRequest.t) (rounds attempt : nat)
    (last : option DoResult) : M (option DoResult) :=
  match rounds with
  | O => ret last
  | S r =>
      res <- http_Do E attempt req ;;
      match res with
      | Resp _ => ret (Some res)
      | ConnErr _ =>
          sleep (Z.of_nat (attempt + 1) * 1000) ;;
          retry_loop E req r (S attempt) (Some res)
      end
  end.

(** The body of [for scanner.Scan()] on one line. *)
Definition stream_line (E : Env) (channel line : string) : M unit :=
  if strings.HasPrefix line "data: " then
    match json_Unmarshal E (strings.TrimPrefix line "data: ") with
    | Some msg =>
        if String.eqb (ChatResponse.Event msg) "message_part"
        then PostMessageContext channel (ChatResponse.Text msg) ;; sleep 500
        else ret tt
    | None => ret tt
    end
  else ret tt.

(** [for scanner.Scan() { select { case <-ctx.Done(): return; default: ... } }] *)
Fixpoint stream_loop (E : Env) (channel : string) (lines : list string) : M unit :=
  match lines with
  | [] => ret tt
  | line :: rest =>
      d <- ctx_done E ;;
      if d then ret tt
      else stream_line E channel line ;; stream_loop E channel rest
  end.

(** [for _, chunk := range chunks] of the single-document branch. *)
Fixpoint post_chunks (channel : string) (chunks : list string) : M unit :=
  match chunks with
  | [] => ret tt
  | chunk :: rest =>
      let chunk := strings.TrimSpace chunk in
      (if String.eqb chunk "" then ret tt
       else PostMessageContext channel chunk ;; sleep 500) ;;
      post_chunks channel rest
  end.

Definition unavailable : string := "Service unavailable, please try later".

(** The request of a task: [ChatRequest{UserID: ev.User, Query: query,
    ChannelID: ev.Channel}]. *)
Definition request (ev : AppMentionEvent.t) (query : string) : ChatRequest.t :=
  ChatRequest.mk (AppMentionEvent.User ev) query (AppMentionEvent.Channel ev).

(** The first half of [processTask]: the retry loop, which leaves
    [(resp, err)]. *)
Definition connect (E : Env) (ev : AppMentionEvent.t) (query : string) : M (option DoResult) :=
  retry_loop E (request ev query) 3 0 None.

(** [switch resp.Header.Get("Content-Type")] *)
Definition switch_content_type (E : Env) (channel : string) (resp : Response.t) : M unit :=
  if String.eqb (Response.ContentType resp) "text/event-stream"
  then stream_loop E channel (bufio.ScanLines (Response.Body resp))
  else match json_Decode E (Response.Body resp) with
       | Some result =>
           post_chunks channel (strings.SplitAfter (ChatResponse.Full result) ". ")
       | None => ret tt
       end.

(** The second half of [processTask], from [if err != nil] on.  The loop
    runs at least once, so [None] (both [resp] and [err] still [nil]) does
    not reach it. *)
Definition respond (E : Env) (channel : string) (last : option DoResult) : M unit :=
  match last with
  | None => ret tt
  | Some (ConnErr _) => PostMessageContext channel unavailable
  | Some (Resp resp) => switch_content_type E channel resp
  end.

Definition processTask (E : Env) (ev : AppMentionEvent.t) (query : string) : M unit :=
  last <- connect E ev query ;;
  respond E (AppMentionEvent.Channel ev) last.

(** The effects of a task started at instant [0]. *)
Definition run {A} (m : M A) : list Effect := snd (m 0%Z).

(** The sink calls among the effects, as (channel, text). *)
Definition posts (l : list Effect) : list (string * string) :=
  flat_map (fun e => match e with PostMessage c t => [(c, t)] | _ => [] end) l.

(** The texts sent to the sink. *)
Definition fragments (l : list Effect) : list string := map snd (posts l).

(** The backoff sleeps and pacing delays, in order. *)
Definition sleeps (l : list Effect) : list Z :=
  flat_map (fun e => match e with Sleep d => [d] | _ => [] end) l.


(** ** The worker pool

    [tasks] is the content of the buffered channel [p.tasks], oldest first;
    [closed] is set by [close(p.tasks)].  A task is the closure
    [func() { processTask(ctx, api, ev, query) }] handed to [Submit], kept as
    the values it captures. *)

Record Task := { task_ev : AppMentionEvent.t; task_query : string }.

(** A worker goroutine: waiting in [for task := range p.tasks], inside
    [task()], or past the loop (its [wg.Done()] has run). *)
Inductive WorkerState :=
| Idle
| Running (t : Task)
| Exited.

Record WorkerPool := {
  tasks : list Task;
  capacity : nat;
  closed : bool;
  workers : list WorkerState
}.

(** What a call does to the goroutine that makes it: it returns, it blocks,
    or it panics. *)
Inductive Outcome :=
| Returned (p : WorkerPool)
| Blocked
| Panicked (msg : string).

Definition NewWorkerPool (maxWorkers : nat) : WorkerPool :=
  {| tasks := []; capacity := maxWorkers * 2; closed := false;
     workers := repeat Idle maxWorkers |}.

(** [p.tasks <- task]: a send on a closed channel panics; a send on a full
    channel waits. *)
Definition Submit (p : WorkerPool) (task : Task) : Outcome :=
  if closed p then Panicked "send on closed channel"
  else if Nat.ltb (length (tasks p)) (capacity p)
       then Returned {| tasks := tasks p ++ [task]; capacity := capacity p;
                        closed := closed p; workers := workers p |}
       else Blocked.

(** [close(p.tasks)], the first statement of [Shutdown]. *)
Definition close (p : WorkerPool) : Outcome :=
  if closed p then Panicked "close of closed channel"
  else Returned {| tasks := tasks p; capacity := capacity p; closed := true;
                   workers := workers p |}.

(** [p.wg.Wait()] returns: every worker has left its loop. *)
Definition wg_zero (p : WorkerPool) : bool :=
  forallb (fun w => match w with Exited => true | _ => false end) (workers p).

(** [Shutdown] has returned. *)
Definition Shutdown_returned (p : WorkerPool) : bool := closed p && wg_zero p.

Fixpoint replace_nth {A} (i : nat) (x : A) (l : list A) : list A :=
  match l, i with
  | [], _ => []
  | _ :: r, O => x :: r
  | y :: r, S k => y :: replace_nth k x r
  end.

Definition set_worker (i : nat) (w : WorkerState) (p : WorkerPool) : WorkerPool :=
  {| tasks := tasks p; capacity := capacity p; closed := closed p;
     workers := replace_nth i w (workers p) |}.

(** The program as a whole: running, or ended by a panic that no goroutine
    recovers ([main.go] has no [recover]). *)
Inductive Program :=
| Alive (p : WorkerPool)
| Crashed (msg : string).

(** The moves of the goroutines, interleaved by the scheduler. *)
Inductive Action :=
| ASubmit (t : Task)   (* some goroutine calls [Submit] *)
| AClose               (* [Shutdown] closes the channel *)
| ATake (i : nat)      (* worker [i] receives the oldest task *)
| ADone (i : nat)      (* the task of worker [i] returns *)
| AExit (i : nat).     (* worker [i] finds the channel closed and empty *)

(** One move, with the tasks it completes; [None] when the move is not
    possible in [p] (a blocked send or receive). *)
Definition step (p : WorkerPool) (a : Action) : option (Program * list Task) :=
  match a with
  | ASubmit t =>
      match Submit p t with
      | Returned p' => Some (Alive p', [])
      | Blocked => None
      | Panicked m => Some (Crashed m, [])
      end
  | AClose =>
      match close p with
      | Returned p' => Some (Alive p', [])
      | Blocked => None
      | Panicked m => Some (Crashed m, [])
      end
  | ATake i =>
      match nth_error (workers p) i, tasks p with
      | Some Idle, t :: q =>
          Some (Alive {| tasks := q; capacity := capacity p; closed := closed p;
                         workers := replace_nth i (Running t) (workers p) |}, [])
      | _, _ => None
      end
  | ADone i =>
      match nth_error (workers p) i with
      | Some (Running t) => Some (Alive (set_worker i Idle p), [t])
      | _ => None
      end
  | AExit i =>
      match nth_error (workers p) i, tasks p, closed p with
      | Some Idle, [], true => Some (Alive (set_worker i Exited p), [])
      | _, _, _ => None
      end
  end.

(** A schedule run from [p]: the program it leaves and the tasks that ran
    to completion, in the order they finished.  A crashed program makes no
    further move. *)
Fixpoint exec (p : WorkerPool) (acts : list Action) : option (Program * list Task) :=
  match acts with
  | [] => Some (Alive p, [])
  | a :: rest =>
      match step p a with
      | None => None
      | Some (Crashed m, done) => match rest with [] => Some (Crashed m, done) | _ => None end
      | Some (Alive p1, done1) =>
          match exec p1 rest with
          | None => None
          | Some (prog, done2) => Some (prog, done1 ++ done2)
          end
      end
  end.

(** The tasks handed to the pool by a schedule. *)
Definition submitted (acts : list Action) : list Task :=
  flat_map (fun a => match a with ASubmit t => [t] | _ => [] end) acts.

(** ** The dispatchers *)

Definition mention_token (ev : AppMentionEvent.t) : string :=
  "<@" ++ AppMentionEvent.BotID ev ++ ">".

Definition cleanQuery (ev : AppMentionEvent.t) : string :=
  strings.TrimSpace (strings.ReplaceAll (AppMentionEvent.Text ev) (mention_token ev) "").

Definition processMention (ev : AppMentionEvent.t) (pool : WorkerPool) : Outcome :=
  if String.eqb (cleanQuery ev) "" then Returned pool
  else Submit pool {| task_ev := ev; task_query := cleanQuery ev |}.

Definition processDirectMessage (ev : MessageEvent.t) (pool : WorkerPool) : Outcome :=
  if negb (String.eqb (MessageEvent.BotID ev) "") || String.eqb (MessageEvent.Text ev) ""
  then Returned pool
  else if negb (String.eqb (MessageEvent.ChannelType ev) "im")
  then Returned pool
  else Submit pool
         {| task_ev := AppMentionEvent.mk (MessageEvent.User ev) (MessageEvent.Channel ev)
                                          (MessageEvent.Text ev) "";
            task_query := MessageEvent.Text ev |}.

(** * Definitions for the statements *)

(** ** Records of the streamed transport *)

(** A record of the stream, in the words of the specification. *)
Inductive StreamRecord :=
| Fragment (text : string)
| Terminal (status : string).

(** The record a transport line carries: a line with the [data: ] prefix
    whose JSON decodes and whose event is [message_part] or [stream_end]. *)
Definition record_of (E : Env) (line : string) : option StreamRecord :=
  if strings.HasPrefix line "data: " then
    match json_Unmarshal E (strings.TrimPrefix line "data: ") with
    | Some msg =>
        if String.eqb (ChatResponse.Event msg) "message_part"
        then Some (Fragment (ChatResponse.Text msg))
        else if String.eqb (ChatResponse.Event msg) "stream_end"
        then Some (Terminal (ChatResponse.Status msg))
        else None
    | None => None
    end
  else None.

(** The texts of all the fragment records of a stream, in arrival order. *)
Definition fragment_texts (E : Env) (lines : list string) : list string :=
  flat_map (fun line => match record_of E line with
                        | Some (Fragment text) => [text]
                        | _ => []
                        end) lines.


(** ** Chunks of the single-document transport *)

(** The chunks that reach the sink: trimmed, the empty ones left out. *)
Definition sent_chunks (chunks : list string) : list string :=
  filter (fun chunk => negb (String.eqb chunk "")) (map strings.TrimSpace chunks).

(** ** The HTTP status *)



(** ** White space *)

(** The string does not start with any of the space sequences. *)
Definition no_leading (sp : list string) (s : string) : Prop :=
  forall w, In w sp -> strings.HasPrefix s w = false.

(** ** Mentions in the words of the specification *)

(** The query of a mention in the words of the specification: no task
    without a bot identifier; otherwise a leading token is stripped, the
    text trimmed, and an empty text dropped. *)
Definition spec_mention_query (ev : AppMentionEvent.t) : option string :=
  if String.eqb (AppMentionEvent.BotID ev) "" then None
  else
    let q := strings.TrimSpace (strings.TrimPrefix (AppMentionEvent.Text ev) (mention_token ev)) in
    if String.eqb q "" then None else Some q.

(** ** The state of the workers *)

(** The tasks inside [task()] at the moment. *)
Definition inflight (ws : list WorkerState) : list Task :=
  flat_map (fun w => match w with Running t => [t] | _ => [] end) ws.

(** The moves the workers still have to make before [wg.Wait()] returns:
    two for each queued task (receive it, finish it), two for a worker
    inside a task (finish it, leave), one for a waiting worker (leave). *)
Definition worker_moves (w : WorkerState) : nat :=
  match w with Idle => 1 | Running _ => 2 | Exited => 0 end.

Definition pending_work (p : WorkerPool) : nat :=
  2 * length (tasks p) + list_sum (map worker_moves (workers p)).

(** The view of one move: what it needs and what it leaves. *)
Inductive step_view (p : WorkerPool) : Action -> WorkerPool -> list Task -> Prop :=
| view_submit t :
    closed p = false -> length (tasks p) < capacity p ->
    step_view p (ASubmit t)
      {| tasks := tasks p ++ [t]; capacity := capacity p; closed := false;
         workers := workers p |} []
| view_close :
    closed p = false ->
    step_view p AClose
      {| tasks := tasks p; capacity := capacity p; closed := true;
         workers := workers p |} []
| view_take l1 l2 t q :
    workers p = l1 ++ Idle :: l2 -> tasks p = t :: q ->
    step_view p (ATake (length l1))
      {| tasks := q; capacity := capacity p; closed := closed p;
         workers := l1 ++ Running t :: l2 |} []
| view_done l1 l2 t :
    workers p = l1 ++ Running t :: l2 ->
    step_view p (ADone (length l1))
      {| tasks := tasks p; capacity := capacity p; closed := closed p;
         workers := l1 ++ Idle :: l2 |} [t]
| view_exit l1 l2 :
    workers p = l1 ++ Idle :: l2 -> tasks p = [] -> closed p = true ->
    step_view p (AExit (length l1))
      {| tasks := []; capacity := capacity p; closed := true;
         workers := l1 ++ Exited :: l2 |} [].

(** A worker leaves only when the channel is closed and empty, and then it
    stays so. *)
Definition drained (p : WorkerPool) : Prop :=
  In Exited (workers p) -> closed p = true /\ tasks p = [].

(** ** Sample backends

    [encoding/json] is outside the repository; concrete runs use a decoder
    given by a table of the documents that occur in them, each with the
    [ChatResponse] that [json.Marshal] wrote it from. *)

Module Sample.

Definition dq : string := String "034"%char "".

(** A JSON string without escapes. *)
Definition jstr (s : string) : string := dq ++ s ++ dq.

Definition part (id : Z) (text : string) : ChatResponse.t :=
  ChatResponse.mk id "message_part" text "" "" "".

Definition stream_end (id : Z) : ChatResponse.t :=
  ChatResponse.mk id "stream_end" "" "done" "" "".

Definition full (text : string) : ChatResponse.t :=
  ChatResponse.mk 0 "" "" "" text "".

(** [{"id":N,"event":"message_part","text_chunk":"..."}] *)
Definition part_json (id text : string) : string :=
  "{" ++ jstr "id" ++ ":" ++ id ++ "," ++ jstr "event" ++ ":" ++ jstr "message_part"
      ++ "," ++ jstr "text_chunk" ++ ":" ++ jstr text ++ "}".

(** [{"id":N,"event":"stream_end","status":"done"}] *)
Definition end_json (id : string) : string :=
  "{" ++ jstr "id" ++ ":" ++ id ++ "," ++ jstr "event" ++ ":" ++ jstr "stream_end"
      ++ "," ++ jstr "status" ++ ":" ++ jstr "done" ++ "}".

(** [{"full_response":"..."}] and the newline [Encode] adds *)
Definition full_json (text : string) : string :=
  "{" ++ jstr "full_response" ++ ":" ++ jstr text ++ "}" ++ String "010"%char "".

Definition documents : list (string * ChatResponse.t) :=
  [ (part_json "1" "x", part 1 "x");
    (part_json "2" "y", part 2 "y");
    (part_json "3" "y", part 3 "y");
    (end_json "2", stream_end 2);
    (end_json "3", stream_end 3);
    (full_json "A. B.", full "A. B.") ].

Definition decode (data : string) : option ChatResponse.t :=
  option_map snd (find (fun d => String.eqb (fst d) data) documents).

(** One frame of the stream as the backends of the tests write it:
    [data: <json>] and an empty line. *)
Definition frame (json : string) : string :=
  "data: " ++ json ++ String "010"%char (String "010"%char "").

Definition env (backend : ChatRequest.t -> nat -> DoResult) (cancelled_at : option Z) : Env :=
  {| json_Unmarshal := decode; json_Decode := decode;
     backend := backend; cancelled_at := cancelled_at |}.

Definition ev : AppMentionEvent.t := AppMentionEvent.mk "U1" "C1" "foo" "".

(** [fragment "x", fragment "y", terminal] *)
Definition stream_xy_end : Response.t :=
  Response.mk 200 "text/event-stream"
    (frame (part_json "1" "x") ++ frame (part_json "2" "y") ++ frame (end_json "3")).


Definition single (status : Z) : Response.t :=
  Response.mk status "application/json" (full_json "A. B.").

End Sample.

(** ** Sample schedules *)

Module PoolSample.

Definition t1 : Task := {| task_ev := Sample.ev; task_query := "one" |}.
Definition t2 : Task := {| task_ev := Sample.ev; task_query := "two" |}.

(** One worker, two tasks handed in, [Shutdown] while the first runs. *)
Definition schedule : list Action :=
  [ASubmit t1; ASubmit t2; ATake 0; AClose; ADone 0; ATake 0].

(** The pool that schedule leaves: closed, the worker inside [t2]. *)
Definition pool : WorkerPool :=
  {| tasks := []; capacity := 2; closed := true; workers := [Running t2] |}.

(** The worker finishes and leaves. *)
Definition rest : list Action := [ADone 0; AExit 0].

Definition drained_pool : WorkerPool :=
  {| tasks := []; capacity := 2; closed := true; workers := [Exited] |}.

End PoolSample.

(** * The code around the claims *)

(** ** The worker pool: the order of the receives *)

(** The tasks the workers receive along a schedule, in the order of the
    receives. *)
Fixpoint received (p : WorkerPool) (acts : list Action) : list Task :=
  match acts with
  | [] => []
  | a :: rest =>
      match step p a with
      | Some (Alive p1, _) =>
          match a, tasks p with
          | ATake _, t :: _ => t :: received p1 rest
          | _, _ => received p1 rest
          end
      | _ => []
      end
  end.

(** ** Running a queued task *)



(** A fragment at the sink and the pacing delay behind it. *)
Definition paced (channel text : string) : list Effect :=
  [PostMessage channel text; Sleep 500].

(** ** The event loop of [main]

    The goroutine [for evt := range socket.Events] of [main], over the
    events as the two nested switches read them: the type of the socket
    event, the type assertion on its data, the type of the Events API event
    and the type switch on its inner event. *)

Inductive EventType := EventTypeEventsAPI | OtherEventType.

Inductive EventsAPIType := CallbackEvent | OtherAPIType.

Inductive InnerEventData :=
| InnerAppMention (ev : AppMentionEvent.t)
| InnerMessage (ev : MessageEvent.t)
| InnerOther.

Record EventsAPIEvent := { api_Type : EventsAPIType; InnerEvent : InnerEventData }.

(** [evt.Data], with what the assertion
    [evt.Data.(slackevents.EventsAPIEvent)] finds in it. *)
Inductive EventData :=
| DataEventsAPI (e : EventsAPIEvent)
| DataOther.

Record Event := { evt_Type : EventType; evt_Data : EventData }.

(** One round of the loop: whether [socket.Ack] was called, and what the
    dispatcher did to the goroutine. *)
Definition handle_event (evt : Event) (pool : WorkerPool) : bool * Outcome :=
  match evt_Type evt with
  | EventTypeEventsAPI =>
      match evt_Data evt with
      | DataOther => (false, Returned pool)
      | DataEventsAPI e =>
          (true,
           match api_Type e with
           | CallbackEvent =>
               match InnerEvent e with
               | InnerAppMention ev => processMention ev pool
               | InnerMessage ev => processDirectMessage ev pool
               | InnerOther => Returned pool
               end
           | OtherAPIType => Returned pool
           end)
      end
  | OtherEventType => (false, Returned pool)
  end.

(** The loop over the events that arrive, while no worker moves: the number
    of acknowledgements, and the outcome of the last dispatch reached. *)
Fixpoint event_loop (evts : list Event) (pool : WorkerPool) : nat * Outcome :=
  match evts with
  | [] => (0, Returned pool)
  | evt :: rest =>
      let '(acked, o) := handle_event evt pool in
      let n := if acked then 1 else 0 in
      match o with
      | Returned pool1 =>
          let '(m, o') := event_loop rest pool1 in (n + m, o')
      | _ => (n, o)
      end
  end.

(** The task an event is worth, if the dispatchers accept it. *)
Definition task_of (evt : Event) : list Task :=
  match evt_Type evt, evt_Data evt with
  | EventTypeEventsAPI, DataEventsAPI e =>
      match api_Type e, InnerEvent e with
      | CallbackEvent, InnerAppMention ev =>
          if String.eqb (cleanQuery ev) "" then []
          else [{| task_ev := ev; task_query := cleanQuery ev |}]
      | CallbackEvent, InnerMessage ev =>
          if String.eqb (MessageEvent.BotID ev) ""
             && negb (String.eqb (MessageEvent.Text ev) "")
             && String.eqb (MessageEvent.ChannelType ev) "im"
          then [{| task_ev := AppMentionEvent.mk (MessageEvent.User ev)
                                (MessageEvent.Channel ev) (MessageEvent.Text ev) "";
                   task_query := MessageEvent.Text ev |}]
          else []
      | _, _ => []
      end
  | _, _ => []
  end.

(** The events [socket.Ack] is called for. *)
Definition acked (evt : Event) : bool :=
  match evt_Type evt, evt_Data evt with
  | EventTypeEventsAPI, DataEventsAPI _ => true
  | _, _ => false
  end.

(** ** The backend of [mockBackend]

    The handler registered by [mockBackend], as a function of the [Accept]
    header and the body of the request.  [encoding/json] is a parameter:
    the encoder of the responses and the decoder of the request.  The
    pauses of the handler between two frames are the server's; they are not
    part of the body. *)

Record Codec := {
  (** [json.Marshal(ChatRequest{...})] in [processTask] *)
  Marshal_request : ChatRequest.t -> string;
  (** [json.NewDecoder(r.Body).Decode(&req)] in the handler *)
  Decode_request : string -> option ChatRequest.t;
  (** [json.Marshal(resp)] in the handler *)
  Marshal_response : ChatResponse.t -> string
}.

Definition nl : string := String "010"%char "".

(** [%d] of [fmt]: the decimal digits, with a sign for a negative number. *)
Definition Itoa (n : Z) : string :=
  DecimalString.NilZero.string_of_int (Z.to_int n).

(** The four records of the streamed answer. *)
Definition mock_responses (query : string) : list ChatResponse.t :=
  [ ChatResponse.mk 1 "message_part" ("Processing: " ++ query) "" "" "";
    ChatResponse.mk 2 "message_part" "Goroutines are lightweight threads" "" "" "";
    ChatResponse.mk 3 "message_part" "They enable concurrent execution" "" "" "";
    ChatResponse.mk 4 "stream_end" "" "done" "" "" ].

(** [fmt.Fprintf(w, "id: %d\nevent: %s\ndata: %s\n\n", resp.ID, resp.Event, data)] *)
Definition sse_frame (C : Codec) (resp : ChatResponse.t) : string :=
  "id: " ++ Itoa (ChatResponse.ID resp) ++ nl
  ++ "event: " ++ ChatResponse.Event resp ++ nl
  ++ "data: " ++ Marshal_response C resp ++ nl ++ nl.

Definition mock_full (query : string) : ChatResponse.t :=
  ChatResponse.mk 0 "" "" ""
    ("Complete response to '" ++ query ++ "': Goroutines enable concurrency in Go") "".

Definition mockBackend (C : Codec) (accept body : string) : Response.t :=
  match Decode_request C body with
  | None => Response.mk 400 "" ""
  | Some req =>
      if String.eqb accept "text/event-stream"
      then Response.mk 200 "text/event-stream"
             (String.concat "" (map (sse_frame C) (mock_responses (ChatRequest.Query req))))
      else Response.mk 200 "application/json"
             (Marshal_response C (mock_full (ChatRequest.Query req)) ++ nl)
  end.

(** The world in which [processTask] talks to [mockBackend]: its request
    goes out with the header [Accept: text/event-stream] and the marshalled
    [ChatRequest] for a body. *)
Definition mock_env (C : Codec) (unmarshal decode : string -> option ChatResponse.t)
    (cancelled : option Z) : Env :=
  {| json_Unmarshal := unmarshal; json_Decode := decode;
     backend := fun req _ => Resp (mockBackend C "text/event-stream" (Marshal_request C req));
     cancelled_at := cancelled |}.

(** The string holds the byte. *)
Fixpoint has_byte (b : ascii) (s : string) : bool :=
  match s with
  | EmptyString => false
  | String c s' => Ascii.eqb c b || has_byte b s'
  end.

(** A document on one line: no line feed, no carriage return, and short
    enough for the scanner behind the [data: ] prefix. *)
Definition one_line (doc : string) : Prop :=
  has_byte "010"%char doc = false
  /\ has_byte "013"%char doc = false
  /\ bufio.fits ("data: " ++ doc) = true.

(** The lines of one frame of the streamed answer. *)
Definition frame_lines (C : Codec) (resp : ChatResponse.t) : list string :=
  [ ("id: " ++ Itoa (ChatResponse.ID resp))%string;
    ("event: " ++ ChatResponse.Event resp)%string;
    ("data: " ++ Marshal_response C resp)%string;
    "" ].

(** Lines, each with its line feed, in front of [rest]. *)
Definition unlines (lines : list string) (rest : string) : string :=
  fold_right (fun line acc => (line ++ String "010"%char acc)%string) rest lines.

(** A line the scanner gives back as it is. *)
Definition plain_line (line : string) : Prop :=
  has_byte "010"%char line = false
  /\ has_byte "013"%char line = false
  /\ bufio.fits line = true.

(** The fragments a context cancelled at [c] lets through from instant
    [now] on: one every 500 ms. *)
Definition let_through (c now : Z) : nat := Z.to_nat ((c - now + 499) / 500).

(** ** A sample codec

    The documents of a conversation about the query [foo], as
    [encoding/json] writes them, and the decoders that read them back. *)

Module SampleCodec.

Definition marshal_response (resp : ChatResponse.t) : string :=
  if String.eqb (ChatResponse.Event resp) "message_part"
  then Sample.part_json (Itoa (ChatResponse.ID resp)) (ChatResponse.Text resp)
  else Sample.end_json (Itoa (ChatResponse.ID resp)).

(** [{"user_id":"...","query":"...","channel_id":"..."}] *)
Definition marshal_request (req : ChatRequest.t) : string :=
  "{" ++ Sample.jstr "user_id" ++ ":" ++ Sample.jstr (ChatRequest.UserID req)
      ++ "," ++ Sample.jstr "query" ++ ":" ++ Sample.jstr (ChatRequest.Query req)
      ++ "," ++ Sample.jstr "channel_id" ++ ":" ++ Sample.jstr (ChatRequest.ChannelID req)
      ++ "}".

Definition request : ChatRequest.t := ChatRequest.mk "U1" "foo" "C1".

Definition decode_request (body : string) : option ChatRequest.t :=
  if String.eqb body (marshal_request request) then Some request else None.

Definition unmarshal (data : string) : option ChatResponse.t :=
  find (fun resp => String.eqb (marshal_response resp) data) (mock_responses "foo").

Definition codec : Codec :=
  {| Marshal_request := marshal_request; Decode_request := decode_request;
     Marshal_response := marshal_response |}.

End SampleCodec.

(** ** Sample events *)

Module EventSample.

Definition callback (inner : InnerEventData) : Event :=
  {| evt_Type := EventTypeEventsAPI;
     evt_Data := DataEventsAPI {| api_Type := CallbackEvent; InnerEvent := inner |} |}.

Definition mention : AppMentionEvent.t :=
  AppMentionEvent.mk "U123" "C123" "<@B456>   What is Go?" "B456".

(** A direct message, a message in a shared channel and a mention. *)
Definition events : list Event :=
  [ callback (InnerMessage (MessageEvent.mk "U1" "D1" "hello" "" "im"));
    callback (InnerMessage (MessageEvent.mk "U2" "C9" "hi all" "" "channel"));
    callback (InnerAppMention mention) ].

(** The pool of one worker after these events. *)
Definition pool : WorkerPool :=
  {| tasks := [ {| task_ev := AppMentionEvent.mk "U1" "D1" "hello" "";
                   task_query := "hello" |};
                {| task_ev := mention; task_query := "What is Go?" |} ];
     capacity := 2; closed := false; workers := [Idle] |}.

End EventSample.

(** * Lemmas and theorems *)

(** ** Package [strings]: runs *)

Example TrimSpace_mention : strings.TrimSpace "   What is Go?" = "What is Go?".
Proof. reflexivity. Qed.

Example TrimSpace_unicode :
  strings.TrimSpace (strings.bytes [194; 160; 32] ++ "a" ++ strings.bytes [9; 226; 128; 168]) = "a".
Proof. reflexivity. Qed.

Example ReplaceAll_mention :
  strings.ReplaceAll "<@B456>   What is Go?" "<@B456>" "" = "   What is Go?".
Proof. reflexivity. Qed.

Example SplitAfter_AB : strings.SplitAfter "A. B." ". " = ["A. "; "B."].
Proof. reflexivity. Qed.

Example SplitAfter_trailing : strings.SplitAfter "A. " ". " = ["A. "; ""].
Proof. reflexivity. Qed.

(** ** [strings.Index] and [strings.SplitAfter] *)

Lemma take_drop (n : nat) (s : string) : (strings.take n s ++ strings.drop n s)%string = s.
Proof.
  revert s; induction n as [|n IH]; intros [|c s]; simpl; try reflexivity.
  now rewrite IH.
Qed.

Lemma length_drop (n : nat) (s : string) :
  String.length (strings.drop n s) = String.length s - n.
Proof.
  revert s; induction n as [|n IH]; intros [|c s]; simpl; try reflexivity; try lia.
  apply IH.
Qed.


Lemma HasPrefix_length (s p : string) :
  strings.HasPrefix s p = true -> String.length p <= String.length s.
Proof.
  unfold strings.HasPrefix. revert s; induction p as [|c p IH]; intros [|d s]; simpl;
    intros H; try lia; try discriminate.
  destruct (ascii_dec c d); [|discriminate]. apply IH in H. lia.
Qed.


Lemma Index_eq (s sep : string) :
  strings.Index s sep
  = if strings.HasPrefix s sep then Some 0
    else match s with
         | EmptyString => None
         | String _ s' => option_map S (strings.Index s' sep)
         end.
Proof. destruct s; reflexivity. Qed.






(** ** [strings.ReplaceAll] *)

Lemma HasPrefix_app (p s : string) : strings.HasPrefix (p ++ s)%string p = true.
Proof.
  unfold strings.HasPrefix. induction p as [|c p IH]; simpl; [now destruct s|].
  destruct (ascii_dec c c); [exact IH|congruence].
Qed.

Lemma drop_app (p s : string) : strings.drop (String.length p) (p ++ s)%string = s.
Proof. induction p as [|c p IH]; simpl; [reflexivity|exact IH]. Qed.

Lemma length_append (a b : string) :
  String.length (a ++ b)%string = String.length a + String.length b.
Proof. induction a as [|c a IH]; simpl; [reflexivity|now rewrite IH]. Qed.

Lemma Replace_loop_absent (rounds : nat) (s old new : string) :
  strings.Index s old = None -> strings.Replace_loop rounds s old new = s.
Proof. intros H. destruct rounds; simpl; [reflexivity|now rewrite H]. Qed.

(** One leading token and no other: [ReplaceAll] strips just that. *)
Lemma ReplaceAll_leading (old rest : string) :
  old <> "" ->
  strings.Index rest old = None ->
  strings.ReplaceAll (old ++ rest) old "" = rest.
Proof.
  intros Hne Habs. unfold strings.ReplaceAll.
  apply String.eqb_neq in Hne. rewrite Hne.
  assert (Hlen : String.length (old ++ rest)%string
                 = S (String.length (old ++ rest)%string - 1)).
  { rewrite length_append. destruct old; [discriminate|simpl; lia]. }
  rewrite Hlen. simpl strings.Replace_loop.
  rewrite Index_eq, HasPrefix_app. simpl.
  rewrite drop_app. apply Replace_loop_absent, Habs.
Qed.

(** ** [strings.TrimSpace] trims for good *)

Lemma length_list_ascii (s : string) :
  length (list_ascii_of_string s) = String.length s.
Proof. induction s as [|c s IH]; simpl; [reflexivity|now rewrite IH]. Qed.

Lemma length_of_list_ascii (l : list ascii) :
  String.length (string_of_list_ascii l) = length l.
Proof. induction l as [|c l IH]; simpl; [reflexivity|now rewrite IH]. Qed.

Lemma list_ascii_append (a b : string) :
  list_ascii_of_string (a ++ b)%string = list_ascii_of_string a ++ list_ascii_of_string b.
Proof. induction a as [|c a IH]; simpl; [reflexivity|now rewrite IH]. Qed.

Lemma of_list_ascii_app (l1 l2 : list ascii) :
  string_of_list_ascii (l1 ++ l2)
  = (string_of_list_ascii l1 ++ string_of_list_ascii l2)%string.
Proof. induction l1 as [|c l1 IH]; simpl; [reflexivity|now rewrite IH]. Qed.

Lemma rev_rev (s : string) : strings.rev (strings.rev s) = s.
Proof.
  unfold strings.rev.
  now rewrite list_ascii_of_string_of_list_ascii, rev_involutive,
              string_of_list_ascii_of_string.
Qed.

Lemma length_rev (s : string) : String.length (strings.rev s) = String.length s.
Proof.
  unfold strings.rev. now rewrite length_of_list_ascii, length_rev, length_list_ascii.
Qed.

Lemma rev_append (a b : string) :
  strings.rev (a ++ b)%string = (strings.rev b ++ strings.rev a)%string.
Proof.
  unfold strings.rev. now rewrite list_ascii_append, rev_app_distr, of_list_ascii_app.
Qed.

Lemma HasPrefix_append (b c w : string) :
  strings.HasPrefix b w = true -> strings.HasPrefix (b ++ c)%string w = true.
Proof.
  unfold strings.HasPrefix. revert b; induction w as [|x w IH]; intros b.
  - intros _. now destruct (b ++ c)%string.
  - destruct b as [|y b]; simpl; [discriminate|].
    destruct (ascii_dec x y); [apply IH|discriminate].
Qed.

Lemma leading_space_none (sp : list string) (s : string) :
  Forall (fun w => w <> "") sp ->
  strings.leading_space sp s = 0 <-> no_leading sp s.
Proof.
  intros Hne. unfold strings.leading_space, no_leading. split.
  - destruct (find (strings.HasPrefix s) sp) as [w|] eqn:Hf.
    + apply find_some in Hf. destruct Hf as [Hin _].
      rewrite Forall_forall in Hne. specialize (Hne w Hin).
      destruct w; [congruence|discriminate].
    + intros _ w Hin. exact (find_none _ _ Hf w Hin).
  - intros Hno. destruct (find (strings.HasPrefix s) sp) as [w|] eqn:Hf; [|reflexivity].
    apply find_some in Hf. destruct Hf as [Hin Hp]. rewrite (Hno w Hin) in Hp. discriminate.
Qed.

Lemma leading_space_bound (sp : list string) (s : string) :
  strings.leading_space sp s <= String.length s.
Proof.
  unfold strings.leading_space.
  destruct (find (strings.HasPrefix s) sp) as [w|] eqn:Hf; [|lia].
  apply find_some in Hf. apply HasPrefix_length, Hf.
Qed.

(** With a round for every byte the scan ends at a byte that starts no
    space sequence, or at the end of the string. *)
Lemma trim_left_done (sp : list string) (rounds : nat) :
  forall s, String.length s <= rounds ->
            strings.leading_space sp (strings.trim_left rounds sp s) = 0.
Proof.
  induction rounds as [|r IH]; intros s Hlen; cbn [strings.trim_left].
  - pose proof (leading_space_bound sp s). lia.
  - destruct (strings.leading_space sp s) as [|w] eqn:Hw; [exact Hw|].
    apply IH. rewrite length_drop. lia.
Qed.

Lemma trim_left_fixed (sp : list string) (rounds : nat) (s : string) :
  strings.leading_space sp s = 0 -> strings.trim_left rounds sp s = s.
Proof. intros H. destruct rounds; simpl; [reflexivity|now rewrite H]. Qed.

Lemma drop_drop (n m : nat) (s : string) :
  strings.drop n (strings.drop m s) = strings.drop (m + n) s.
Proof.
  revert s; induction m as [|m IH]; intros s; [reflexivity|].
  destruct s as [|c s]; simpl; [now destruct n|apply IH].
Qed.

(** What the scan leaves is the string behind some offset. *)
Lemma trim_left_suffix (sp : list string) (rounds : nat) :
  forall s, exists k, strings.trim_left rounds sp s = strings.drop k s.
Proof.
  induction rounds as [|r IH]; intros s; cbn [strings.trim_left]; [now exists 0|].
  destruct (strings.leading_space sp s) as [|w]; [now exists 0|].
  destruct (IH (strings.drop (S w) s)) as [k Hk]. exists (S w + k).
  now rewrite Hk, drop_drop.
Qed.

Lemma spaces_not_empty : Forall (fun w => w <> "") strings.spaces.
Proof. repeat constructor; discriminate. Qed.

Lemma rev_spaces_not_empty : Forall (fun w => w <> "") (map strings.rev strings.spaces).
Proof. repeat constructor; discriminate. Qed.

Lemma TrimSpace_idempotent (s : string) :
  strings.TrimSpace (strings.TrimSpace s) = strings.TrimSpace s.
Proof.
  unfold strings.TrimSpace.
  set (a := strings.TrimLeft s).
  assert (Ha : strings.leading_space strings.spaces a = 0)
    by (apply trim_left_done, Nat.le_refl).
  set (b := strings.TrimRight a).
  assert (Hb : strings.leading_space (map strings.rev strings.spaces) (strings.rev b) = 0).
  { unfold b, strings.TrimRight. rewrite rev_rev.
    apply trim_left_done. now rewrite length_rev. }
  assert (Hpre : exists c, a = (b ++ c)%string).
  { unfold b, strings.TrimRight.
    destruct (trim_left_suffix (map strings.rev strings.spaces)
                (String.length a) (strings.rev a)) as [k Hk].
    rewrite Hk. exists (strings.rev (strings.take k (strings.rev a))).
    now rewrite <- rev_append, take_drop, rev_rev. }
  destruct Hpre as [c Hc].
  assert (Hlb : strings.leading_space strings.spaces b = 0).
  { apply (leading_space_none _ _ spaces_not_empty).
    apply (leading_space_none _ _ spaces_not_empty) in Ha.
    intros w Hin. specialize (Ha w Hin).
    destruct (strings.HasPrefix b w) eqn:Hp; [|reflexivity].
    apply (HasPrefix_append b c) in Hp. rewrite <- Hc in Hp. congruence. }
  unfold strings.TrimLeft at 1. rewrite (trim_left_fixed _ _ _ Hlb).
  unfold strings.TrimRight at 1. rewrite (trim_left_fixed _ _ _ Hb).
  apply rev_rev.
Qed.

(** ** The effects of a task *)

Example stream_xy_end_run :
  run (processTask (Sample.env (fun _ _ => Resp Sample.stream_xy_end) None) Sample.ev "foo")
  = [HttpDo 0 (ChatRequest.mk "U1" "foo" "C1");
     PostMessage "C1" "x"; Sleep 500; PostMessage "C1" "y"; Sleep 500].
Proof. vm_compute. reflexivity. Qed.

Example single_run :
  run (processTask (Sample.env (fun _ _ => Resp (Sample.single 200)) None) Sample.ev "foo")
  = [HttpDo 0 (ChatRequest.mk "U1" "foo" "C1");
     PostMessage "C1" "A."; Sleep 500; PostMessage "C1" "B."; Sleep 500].
Proof. vm_compute. reflexivity. Qed.

Lemma posts_app (l1 l2 : list Effect) : posts (l1 ++ l2) = posts l1 ++ posts l2.
Proof. unfold posts. apply flat_map_app. Qed.

Lemma fragments_app (l1 l2 : list Effect) :
  fragments (l1 ++ l2) = fragments l1 ++ fragments l2.
Proof. unfold fragments. rewrite posts_app. apply map_app. Qed.

Lemma sleeps_app (l1 l2 : list Effect) : sleeps (l1 ++ l2) = sleeps l1 ++ sleeps l2.
Proof. unfold sleeps. apply flat_map_app. Qed.


(** A task is its connection phase followed by its response phase. *)
Lemma run_processTask (E : Env) (ev : AppMentionEvent.t) (query : string)
    (last : option DoResult) (t : Z) (l : list Effect) :
  connect E ev query 0%Z = (last, t, l) ->
  run (processTask E ev query) = l ++ snd (respond E (AppMentionEvent.Channel ev) last t).
Proof.
  intros H. unfold run, processTask, bind. rewrite H.
  destruct (respond E (AppMentionEvent.Channel ev) last t) as [[u t2] l2]. reflexivity.
Qed.

(** The retry loop never talks to the sink. *)
Lemma retry_loop_posts (E : Env) (req : ChatRequest.t) (rounds : nat) :
  forall attempt last now, posts (snd (retry_loop E req rounds attempt last now)) = [].
Proof.
  induction rounds as [|r IH]; intros attempt last now; simpl; [reflexivity|].
  unfold bind, http_Do, bind, ctx_done.
  destruct (match cancelled_at E with Some t => (t <=? now)%Z | None => false end);
    [|destruct (backend E req attempt)]; simpl;
    try reflexivity;
    match goal with
    | |- context [retry_loop E req r ?a ?l ?n] =>
        specialize (IH a l n); destruct (retry_loop E req r a l n) as [[x t2] l2]
    end; simpl in *; exact IH.
Qed.

(** ** The streamed transport *)


Lemma fragment_texts_app (E : Env) (l1 l2 : list string) :
  fragment_texts E (l1 ++ l2) = fragment_texts E l1 ++ fragment_texts E l2.
Proof. unfold fragment_texts. apply flat_map_app. Qed.





(** ** The single-document transport *)




(** C10.  For every single-document response whose body does not decode,
    the task does nothing after the connection: no fragment, no fallback
    message, no call of the sink at all. *)
Theorem C10_undecodable_document_is_silent (E : Env) (ev : AppMentionEvent.t)
    (query : string) (resp : Response.t) (t : Z) (l : list Effect) :
  connect E ev query 0%Z = (Some (Resp resp), t, l) ->
  Response.ContentType resp <> "text/event-stream" ->
  json_Decode E (Response.Body resp) = None ->
  run (processTask E ev query) = l /\ posts (run (processTask E ev query)) = [].
Proof.
  intros Hconn Hct Hdec.
  assert (Hrun : run (processTask E ev query) = l).
  { rewrite (run_processTask _ _ _ _ _ _ Hconn). simpl.
    unfold switch_content_type.
    apply String.eqb_neq in Hct. rewrite Hct, Hdec. simpl. apply app_nil_r. }
  split; [exact Hrun|]. rewrite Hrun.
  unfold connect in Hconn.
  pose proof (retry_loop_posts E (request ev query) 3 0 None 0%Z) as Hr.
  rewrite Hconn in Hr. exact Hr.
Qed.

(** A JSON body cut short, got on the second attempt. *)
Lemma C10_undecodable_document_is_silent_witness :
  posts (run (processTask
                (Sample.env (fun _ n => match n with
                                        | O => ConnErr "connection refused"
                                        | _ => Resp (Response.mk 200 "application/json" "{")
                                        end) None)
                Sample.ev "foo")) = [].
Proof.
  exact (proj2 (C10_undecodable_document_is_silent
                  (Sample.env (fun _ n => match n with
                                          | O => ConnErr "connection refused"
                                          | _ => Resp (Response.mk 200 "application/json" "{")
                                          end) None)
                  Sample.ev "foo" (Response.mk 200 "application/json" "{") 1000%Z
                  [HttpDo 0 (ChatRequest.mk "U1" "foo" "C1"); Sleep 1000;
                   HttpDo 1 (ChatRequest.mk "U1" "foo" "C1")]
                  eq_refl ltac:(discriminate) eq_refl)).
Defined.

(** ** The HTTP status *)












(** ** Connection failures and cancellation *)

(** C2, where the code departs from it.  For every backend whose
    connection fails on every attempt the task makes exactly three attempts
    and then sends exactly one fallback message to the event's channel, but
    it sleeps after each of the three failures, the last one included: 1 s,
    2 s and 3 s, where the claim has no sleep after the last attempt.  (A
    cancelled context changes nothing in it.) *)
Theorem C2_sleeps_after_last_attempt (E : Env) (ev : AppMentionEvent.t) (query : string) :
  (forall k, k < 3 -> exists e, backend E (request ev query) k = ConnErr e) ->
  run (processTask E ev query)
  = [HttpDo 0 (request ev query); Sleep 1000;
     HttpDo 1 (request ev query); Sleep 2000;
     HttpDo 2 (request ev query); Sleep 3000;
     PostMessage (AppMentionEvent.Channel ev) unavailable].
Proof.
  intros Hfail.
  destruct (Hfail 0) as [e0 H0]; [lia|].
  destruct (Hfail 1) as [e1 H1]; [lia|].
  destruct (Hfail 2) as [e2 H2]; [lia|].
  unfold run, processTask, connect, bind. simpl.
  unfold bind, http_Do, bind, ctx_done. rewrite H0, H1, H2.
  destruct (cancelled_at E) as [c|]; [|reflexivity].
  repeat (match goal with
          | |- context [Z.leb c ?x] => destruct (Z.leb c x)
          end; simpl);
    reflexivity.
Qed.

(** A backend that refuses every connection. *)
Lemma C2_sleeps_after_last_attempt_witness :
  run (processTask (Sample.env (fun _ _ => ConnErr "connection refused") None)
                   Sample.ev "foo")
  = [HttpDo 0 (ChatRequest.mk "U1" "foo" "C1"); Sleep 1000;
     HttpDo 1 (ChatRequest.mk "U1" "foo" "C1"); Sleep 2000;
     HttpDo 2 (ChatRequest.mk "U1" "foo" "C1"); Sleep 3000;
     PostMessage "C1" "Service unavailable, please try later"].
Proof.
  apply (C2_sleeps_after_last_attempt
           (Sample.env (fun _ _ => ConnErr "connection refused") None) Sample.ev "foo").
  intros k _. exists "connection refused". reflexivity.
Defined.

(** C3, where the code departs from it.  For every task whose first
    connection fails and whose context is cancelled during the first backoff
    sleep, the task does not abort: the sleep is not cut short, both
    remaining calls of [Do] are made and fail on the cancelled context, each
    followed by its full sleep, and the fallback message is sent in the
    end. *)
Theorem C3_retries_through_cancellation (E : Env) (ev : AppMentionEvent.t)
    (query : string) (c : Z) (e : string) :
  cancelled_at E = Some c ->
  (0 < c <= 1000)%Z ->
  backend E (request ev query) 0 = ConnErr e ->
  run (processTask E ev query)
  = [HttpDo 0 (request ev query); Sleep 1000;
     HttpDo 1 (request ev query); Sleep 2000;
     HttpDo 2 (request ev query); Sleep 3000;
     PostMessage (AppMentionEvent.Channel ev) unavailable].
Proof.
  intros Hc Hr H0.
  unfold run, processTask, connect, bind. simpl.
  unfold bind, http_Do, bind, ctx_done. rewrite Hc, H0.
  repeat (match goal with
          | |- context [Z.leb c ?x] => destruct (Z.leb_spec c x); try lia
          end; simpl).
  reflexivity.
Qed.

(** The context is cancelled 500 ms into the first backoff sleep; the
    backend refuses the first connection and would answer the later ones. *)
Lemma C3_retries_through_cancellation_witness :
  run (processTask (Sample.env (fun _ n => match n with
                                           | O => ConnErr "connection refused"
                                           | _ => Resp Sample.stream_xy_end
                                           end) (Some 500%Z))
                   Sample.ev "foo")
  = [HttpDo 0 (ChatRequest.mk "U1" "foo" "C1"); Sleep 1000;
     HttpDo 1 (ChatRequest.mk "U1" "foo" "C1"); Sleep 2000;
     HttpDo 2 (ChatRequest.mk "U1" "foo" "C1"); Sleep 3000;
     PostMessage "C1" "Service unavailable, please try later"].
Proof.
  apply (C3_retries_through_cancellation
           (Sample.env (fun _ n => match n with
                                   | O => ConnErr "connection refused"
                                   | _ => Resp Sample.stream_xy_end
                                   end) (Some 500%Z))
           Sample.ev "foo" 500%Z "connection refused").
  - reflexivity.
  - lia.
  - reflexivity.
Defined.

(** The stream loop, for comparison, does stop on a cancelled context: with
    the cancellation 200 ms into the pacing delay after "x", "y" is not
    sent. *)
Example stream_loop_stops_on_cancellation :
  run (processTask (Sample.env (fun _ _ => Resp Sample.stream_xy_end) (Some 200%Z))
                   Sample.ev "foo")
  = [HttpDo 0 (ChatRequest.mk "U1" "foo" "C1"); PostMessage "C1" "x"; Sleep 500].
Proof. vm_compute. reflexivity. Qed.

(** ** The worker pool: what a schedule preserves *)

Lemma replace_nth_split {A} (l1 : list A) (x y : A) (l2 : list A) :
  replace_nth (length l1) y (l1 ++ x :: l2) = l1 ++ y :: l2.
Proof. induction l1 as [|z l1 IH]; simpl; [reflexivity|now rewrite IH]. Qed.

Lemma inflight_app (l1 l2 : list WorkerState) :
  inflight (l1 ++ l2) = inflight l1 ++ inflight l2.
Proof. apply flat_map_app. Qed.

Lemma moves_app (l1 l2 : list WorkerState) :
  list_sum (map worker_moves (l1 ++ l2))
  = list_sum (map worker_moves l1) + list_sum (map worker_moves l2).
Proof. rewrite map_app. apply list_sum_app. Qed.

(** Worker [i] is in state [w]: the list of workers around it. *)
Lemma worker_at (ws : list WorkerState) (i : nat) (w : WorkerState) :
  nth_error ws i = Some w ->
  exists l1 l2, ws = l1 ++ w :: l2 /\ i = length l1.
Proof.
  intros H. destruct (nth_error_split ws i H) as (l1 & l2 & -> & <-). eauto.
Qed.

Lemma step_inv (p : WorkerPool) (a : Action) (p' : WorkerPool) (d : list Task) :
  step p a = Some (Alive p', d) -> step_view p a p' d.
Proof.
  destruct a as [t| |i|i|i]; unfold step.
  - unfold Submit. destruct (closed p) eqn:Hc; [discriminate|].
    destruct (Nat.ltb_spec (length (tasks p)) (capacity p)); [|discriminate].
    intros [= <- <-]. now constructor.
  - unfold close. destruct (closed p) eqn:Hc; [discriminate|].
    intros [= <- <-]. now constructor.
  - destruct (nth_error (workers p) i) as [[]|] eqn:Hw; try discriminate.
    destruct (tasks p) as [|t q] eqn:Ht; [discriminate|].
    destruct (worker_at _ _ _ Hw) as (l1 & l2 & Hws & ->).
    intros [= <- <-]. rewrite Hws, replace_nth_split. now constructor.
  - destruct (nth_error (workers p) i) as [[]|] eqn:Hw; try discriminate.
    destruct (worker_at _ _ _ Hw) as (l1 & l2 & Hws & ->).
    intros [= <- <-]. unfold set_worker. rewrite Hws, replace_nth_split.
    now constructor.
  - destruct (nth_error (workers p) i) as [[]|] eqn:Hw; try discriminate.
    destruct (tasks p) as [|t q] eqn:Ht; [|discriminate].
    destruct (closed p) eqn:Hc; [|discriminate].
    destruct (worker_at _ _ _ Hw) as (l1 & l2 & Hws & ->).
    intros [= <- <-]. unfold set_worker. rewrite Hws, replace_nth_split, Ht, Hc.
    now constructor.
Qed.

Lemma exec_cons (p : WorkerPool) (a : Action) (rest : list Action)
    (p' : WorkerPool) (done : list Task) :
  exec p (a :: rest) = Some (Alive p', done) ->
  exists p1 d1 d2,
    step_view p a p1 d1 /\ exec p1 rest = Some (Alive p', d2) /\ done = d1 ++ d2.
Proof.
  simpl. destruct (step p a) as [[[p1|m] d1]|] eqn:Hs.
  - destruct (exec p1 rest) as [[prog d2]|] eqn:He; [|discriminate].
    intros [= -> <-]. exists p1, d1, d2.
    split; [apply step_inv, Hs|split; [exact He|reflexivity]].
  - destruct rest; discriminate.
  - discriminate.
Qed.

(** No task is lost and none is made up: what has finished, what is
    running and what is queued is what was there, and what was handed in. *)
Lemma step_conserves (p : WorkerPool) (a : Action) (p' : WorkerPool) (d : list Task) :
  step_view p a p' d ->
  Permutation (d ++ inflight (workers p') ++ tasks p')
              (inflight (workers p) ++ tasks p ++ submitted [a]).
Proof.
  intros [t Hc Hl|Hc|l1 l2 t q Hw Ht|l1 l2 t Hw|l1 l2 Hw Ht Hc]; simpl.
  - reflexivity.
  - now rewrite !app_nil_r.
  - rewrite Hw, Ht, !inflight_app, app_nil_r. simpl.
    rewrite <- !app_assoc. apply Permutation_app_head. simpl.
    apply Permutation_middle.
  - rewrite Hw, !inflight_app, app_nil_r. simpl.
    rewrite <- !app_assoc. simpl. apply Permutation_middle.
  - rewrite Hw, Ht, !inflight_app. reflexivity.
Qed.

Lemma submitted_cons (a : Action) (rest : list Action) :
  submitted (a :: rest) = submitted [a] ++ submitted rest.
Proof. unfold submitted. simpl. now rewrite app_nil_r. Qed.

Lemma exec_conserves (acts : list Action) :
  forall p p' done,
    exec p acts = Some (Alive p', done) ->
    Permutation (done ++ inflight (workers p') ++ tasks p')
                (inflight (workers p) ++ tasks p ++ submitted acts).
Proof.
  induction acts as [|a rest IH]; intros p p' done H.
  - injection H as <- <-. simpl. now rewrite app_nil_r.
  - destruct (exec_cons _ _ _ _ _ H) as (p1 & d1 & d2 & Hs & He & ->).
    apply step_conserves in Hs. apply IH in He.
    rewrite submitted_cons, <- app_assoc.
    etransitivity; [apply Permutation_app_head, He|].
    rewrite !app_assoc. apply Permutation_app_tail.
    rewrite <- !app_assoc. exact Hs.
Qed.

Lemma step_drained (p : WorkerPool) (a : Action) (p' : WorkerPool) (d : list Task) :
  step_view p a p' d -> drained p -> drained p'.
Proof.
  unfold drained.
  intros [t Hc Hl|Hc|l1 l2 t q Hw Ht|l1 l2 t Hw|l1 l2 Hw Ht Hc] Hd; simpl; intros Hin.
  - apply Hd in Hin. destruct Hin; congruence.
  - apply Hd in Hin. destruct Hin; congruence.
  - assert (Hin' : In Exited (workers p)).
    { rewrite Hw. apply in_app_or in Hin. apply in_or_app.
      destruct Hin as [?|[?|?]]; [now left|discriminate|right; now right]. }
    apply Hd in Hin'. destruct Hin'; congruence.
  - apply Hd. rewrite Hw. apply in_app_or in Hin. apply in_or_app.
    destruct Hin as [?|[?|?]]; [now left|discriminate|right; now right].
  - auto.
Qed.

Lemma exec_invariant (acts : list Action) :
  forall p p' done,
    exec p acts = Some (Alive p', done) ->
    drained p ->
    drained p' /\ length (workers p') = length (workers p).
Proof.
  induction acts as [|a rest IH]; intros p p' done H Hd.
  - injection H as <- <-. auto.
  - destruct (exec_cons _ _ _ _ _ H) as (p1 & d1 & d2 & Hs & He & ->).
    destruct (IH _ _ _ He (step_drained _ _ _ _ Hs Hd)) as [Hd' Hlen].
    split; [exact Hd'|]. rewrite Hlen.
    destruct Hs as [t Hc Hl|Hc|l1 l2 t q Hw Ht|l1 l2 t Hw|l1 l2 Hw Ht Hc]; simpl;
      try reflexivity; rewrite Hw, !length_app; reflexivity.
Qed.

(** Once the channel is closed it stays closed, nothing more is handed in,
    and every move is one of the pending moves of the workers. *)
Lemma exec_closed (acts : list Action) :
  forall p p' done,
    exec p acts = Some (Alive p', done) ->
    closed p = true ->
    closed p' = true /\ submitted acts = []
    /\ pending_work p = length acts + pending_work p'.
Proof.
  induction acts as [|a rest IH]; intros p p' done H Hc.
  - injection H as <- <-. auto.
  - destruct (exec_cons _ _ _ _ _ H) as (p1 & d1 & d2 & Hs & He & ->).
    assert (H1 : closed p1 = true /\ submitted [a] = []
                 /\ pending_work p = S (pending_work p1)).
    { unfold pending_work.
      destruct Hs as [t Hc' Hl|Hc'|l1 l2 t q Hw Ht|l1 l2 t Hw|l1 l2 Hw Ht Hc']; simpl;
        try congruence; repeat split; try assumption;
        rewrite Hw, ?Ht, !moves_app; simpl; lia. }
    destruct H1 as (Hc1 & Hs1 & Hp1).
    destruct (IH _ _ _ He Hc1) as (Hc2 & Hs2 & Hp2).
    rewrite submitted_cons, Hs1, Hs2. simpl. repeat split; [assumption|lia].
Qed.

Lemma exec_app (acts1 acts2 : list Action) :
  forall p p' done,
    exec p (acts1 ++ acts2) = Some (Alive p', done) ->
    exists p1 d1 d2,
      exec p acts1 = Some (Alive p1, d1) /\ exec p1 acts2 = Some (Alive p', d2)
      /\ done = d1 ++ d2.
Proof.
  induction acts1 as [|a rest IH]; intros p p' done H.
  - exists p, [], done. auto.
  - simpl app in H. simpl in H. simpl.
    destruct (step p a) as [[[p1|m] d1]|] eqn:Hs.
    + destruct (exec p1 (rest ++ acts2)) as [[prog d2]|] eqn:He; [|discriminate].
      injection H as -> <-.
      destruct (IH _ _ _ He) as (p2 & e1 & e2 & H1 & H2 & ->).
      rewrite H1. exists p2, (d1 ++ e1), e2. rewrite app_assoc. auto.
    + destruct (rest ++ acts2); discriminate.
    + discriminate.
Qed.

(** While a worker has not left, some worker can move. *)
Lemma worker_can_move (p : WorkerPool) :
  closed p = true -> wg_zero p = false ->
  exists a p' d, step p a = Some (Alive p', d).
Proof.
  intros Hc Hz. unfold wg_zero in Hz.
  assert (Hex : exists i w, nth_error (workers p) i = Some w /\ w <> Exited).
  { induction (workers p) as [|w ws IH]; [discriminate|].
    simpl in Hz. destruct w.
    - exists 0, Idle. split; [reflexivity|discriminate].
    - exists 0, (Running t). split; [reflexivity|discriminate].
    - destruct (IH Hz) as (i & w & Hw & Hne). exists (S i), w. auto. }
  destruct Hex as (i & [|t|] & Hw & Hne); [| |congruence].
  - destruct (tasks p) as [|t q] eqn:Ht.
    + exists (AExit i). simpl. rewrite Hw, Ht, Hc. eauto.
    + exists (ATake i). simpl. rewrite Hw, Ht. eauto.
  - exists (ADone i). simpl. rewrite Hw. eauto.
Qed.

Lemma wg_zero_exited (p : WorkerPool) :
  wg_zero p = true ->
  inflight (workers p) = [] /\ (workers p <> [] -> In Exited (workers p)).
Proof.
  unfold wg_zero. induction (workers p) as [|w ws IH]; simpl; [intros _; split; congruence|].
  destruct w; try discriminate. intros H. destruct (IH H) as [Hi _].
  split; [exact Hi|intros _; now left].
Qed.

Lemma NewWorkerPool_drained (N : nat) : drained (NewWorkerPool N).
Proof. intros Hin. simpl in Hin. apply repeat_spec in Hin. discriminate. Qed.

Lemma NewWorkerPool_inflight (N : nat) : inflight (workers (NewWorkerPool N)) = [].
Proof. simpl. induction N as [|N IH]; simpl; [reflexivity|exact IH]. Qed.

(** After [close(p.tasks)] the channel is closed for good. *)
Lemma exec_after_close (acts : list Action) (p p' : WorkerPool) (done : list Task) :
  exec p acts = Some (Alive p', done) ->
  In AClose acts ->
  closed p' = true.
Proof.
  intros H Hin. apply in_split in Hin. destruct Hin as (before & after & ->).
  destruct (exec_app _ _ _ _ _ H) as (p1 & d1 & d2 & _ & H2 & _).
  destruct (exec_cons _ _ _ _ _ H2) as (p2 & e1 & e2 & Hs & He & _).
  apply (exec_closed _ _ _ _ He). inversion Hs. reflexivity.
Qed.

(** When [wg.Wait()] returns, what has finished is what was there. *)
Lemma exec_all_done (acts : list Action) (p p' : WorkerPool) (done : list Task) :
  exec p acts = Some (Alive p', done) ->
  drained p -> workers p <> [] -> wg_zero p' = true ->
  Permutation done (inflight (workers p) ++ tasks p ++ submitted acts).
Proof.
  intros H Hd Hw Hz.
  destruct (exec_invariant _ _ _ _ H Hd) as [Hd' Hlen].
  destruct (wg_zero_exited _ Hz) as [Hi Hex].
  assert (Hw' : workers p' <> []).
  { intros E. rewrite E in Hlen. destruct (workers p); [congruence|discriminate]. }
  destruct (Hd' (Hex Hw')) as [_ Ht].
  pose proof (exec_conserves _ _ _ _ H) as Hp.
  rewrite Hi, Ht, app_nil_r in Hp. exact Hp.
Qed.

(** C9.  For every number of workers N >= 1 and every schedule in which K
    tasks were handed to the pool and the channel has been closed by
    [Shutdown]: no further task is accepted ([Submit] panics, and none was
    handed in after the close); however the workers are scheduled from
    there, they make at most [pending_work] moves, some worker can move as
    long as [wg.Wait()] has not returned, and once it returns the tasks that
    ran are the K tasks handed in, each exactly once. *)
Theorem C9_shutdown_runs_every_task (N : nat) (acts : list Action)
    (p : WorkerPool) (done : list Task) :
  1 <= N ->
  exec (NewWorkerPool N) acts = Some (Alive p, done) ->
  closed p = true ->
  (forall t, Submit p t = Panicked "send on closed channel")
  /\ (forall before after, acts = before ++ AClose :: after -> submitted after = [])
  /\ (forall more p' done',
        exec p more = Some (Alive p', done') ->
        length more <= pending_work p
        /\ (Shutdown_returned p' = false ->
            exists a p'' d, step p' a = Some (Alive p'', d))
        /\ (Shutdown_returned p' = true ->
            Permutation (done ++ done') (submitted acts))).
Proof.
  intros HN Hrun Hc.
  destruct (exec_invariant _ _ _ _ Hrun (NewWorkerPool_drained N)) as [Hd Hlen].
  assert (Hw : workers p <> []).
  { intros E. rewrite E in Hlen. simpl in Hlen. rewrite repeat_length in Hlen. lia. }
  repeat split.
  - intros t. unfold Submit. now rewrite Hc.
  - intros before after ->.
    destruct (exec_app _ _ _ _ _ Hrun) as (p1 & d1 & d2 & _ & H2 & _).
    destruct (exec_cons _ _ _ _ _ H2) as (p2 & e1 & e2 & Hs & He & _).
    apply (exec_closed _ _ _ _ He). inversion Hs. reflexivity.
  - destruct (exec_closed _ _ _ _ H Hc) as (_ & _ & Hp). lia.
  - intros Hz. destruct (exec_closed _ _ _ _ H Hc) as (Hc' & _ & _).
    unfold Shutdown_returned in Hz. rewrite Hc' in Hz.
    now apply worker_can_move.
  - intros Hz. destruct (exec_closed _ _ _ _ H Hc) as (Hc' & Hs & _).
    unfold Shutdown_returned in Hz. rewrite Hc' in Hz. simpl in Hz.
    pose proof (exec_all_done _ _ _ _ H Hd Hw Hz) as Hp'.
    pose proof (exec_conserves _ _ _ _ Hrun) as Hp.
    rewrite NewWorkerPool_inflight in Hp. simpl in Hp.
    rewrite Hs, app_nil_r in Hp'.
    rewrite <- Hp. apply Permutation_app_head. exact Hp'.
Qed.

(** One worker and two tasks: after the shutdown both have run, once each. *)
Lemma C9_shutdown_runs_every_task_witness :
  Permutation ([PoolSample.t1] ++ [PoolSample.t2]) (submitted PoolSample.schedule).
Proof.
  refine (proj2 (proj2 (proj2 (proj2
            (C9_shutdown_runs_every_task 1 PoolSample.schedule PoolSample.pool
               [PoolSample.t1] _ eq_refl eq_refl))
            PoolSample.rest PoolSample.drained_pool [PoolSample.t2] eq_refl)) eq_refl).
  lia.
Defined.

(** C8 (as amended).  On every pool on which [Shutdown] has begun, a later
    [Submit] panics in the calling goroutine with the runtime error of a
    send on a closed channel; so do the two dispatchers for an event they
    accept.  No error value is returned and the task is not queued; no
    goroutine of the relay recovers the panic, so it ends the program, and
    no worker moves after it. *)
Theorem C8_submit_after_shutdown_panics (N : nat) (acts : list Action)
    (p : WorkerPool) (done : list Task) (t : Task) :
  exec (NewWorkerPool N) acts = Some (Alive p, done) ->
  In AClose acts ->
  Submit p t = Panicked "send on closed channel"
  /\ exec p [ASubmit t] = Some (Crashed "send on closed channel", [])
  /\ (forall a more, exec p (ASubmit t :: a :: more) = None)
  /\ (forall ev, cleanQuery ev <> "" ->
                 processMention ev p = Panicked "send on closed channel")
  /\ (forall ev, MessageEvent.BotID ev = "" -> MessageEvent.Text ev <> "" ->
                 MessageEvent.ChannelType ev = "im" ->
                 processDirectMessage ev p = Panicked "send on closed channel").
Proof.
  intros Hrun Hin.
  pose proof (exec_after_close _ _ _ _ Hrun Hin) as Hc.
  assert (Hs : forall t', Submit p t' = Panicked "send on closed channel")
    by (intros t'; unfold Submit; now rewrite Hc).
  repeat split.
  - apply Hs.
  - simpl. now rewrite Hs.
  - intros a more. simpl. now rewrite Hs.
  - intros ev Hq. unfold processMention.
    apply String.eqb_neq in Hq. rewrite Hq. apply Hs.
  - intros ev Hb Ht Hi. unfold processDirectMessage.
    apply String.eqb_neq in Ht. rewrite Hb, Ht, Hi. simpl. apply Hs.
Qed.

(** One worker, one task queued, then [Shutdown]: the next [Submit] panics. *)
Lemma C8_submit_after_shutdown_panics_witness :
  Submit {| tasks := [PoolSample.t1]; capacity := 2; closed := true; workers := [Idle] |}
         PoolSample.t2
  = Panicked "send on closed channel".
Proof.
  refine (proj1 (C8_submit_after_shutdown_panics 1 [ASubmit PoolSample.t1; AClose]
                   {| tasks := [PoolSample.t1]; capacity := 2; closed := true;
                      workers := [Idle] |} [] PoolSample.t2 eq_refl _)).
  right. left. reflexivity.
Defined.

(** C8 as stated fails: with one task queued and the channel closed, a
    [Submit] ends the program, and the pool with it: whatever a worker
    would do next is no longer possible, and the queued task never runs.
    Without that [Submit] the same pool runs the task and shuts down. *)
Lemma C8_counterexample :
  exec (NewWorkerPool 1) [ASubmit PoolSample.t1; AClose; ASubmit PoolSample.t2]
  = Some (Crashed "send on closed channel", [])
  /\ (forall a, exec (NewWorkerPool 1)
                     ([ASubmit PoolSample.t1; AClose; ASubmit PoolSample.t2] ++ [a]) = None)
  /\ exec (NewWorkerPool 1) [ASubmit PoolSample.t1; AClose; ATake 0; ADone 0; AExit 0]
     = Some (Alive {| tasks := []; capacity := 2; closed := true; workers := [Exited] |},
             [PoolSample.t1]).
Proof. repeat split. Qed.

(** ** The dispatchers *)

(** C5 (as amended).  For every mention event the query is the text with
    every occurrence of the token [<@BotID>] removed (not only a leading
    one) and then trimmed; a text that is one leading token and a rest
    without the token gives the trimmed rest.  The event is dropped exactly
    when that query is empty, and then the pool is returned as it was: no
    task, the queue unchanged.  A missing bot identifier alone drops
    nothing.  The dispatcher itself never calls the sink. *)
Theorem C5_mention_dispatch (ev : AppMentionEvent.t) (pool : WorkerPool) :
  let token := ("<@" ++ AppMentionEvent.BotID ev ++ ">")%string in
  let query := strings.TrimSpace (strings.ReplaceAll (AppMentionEvent.Text ev) token "") in
  (forall rest,
      AppMentionEvent.Text ev = (token ++ rest)%string ->
      strings.Index rest token = None ->
      query = strings.TrimSpace rest)
  /\ (query = "" -> processMention ev pool = Returned pool)
  /\ (query <> "" ->
      processMention ev pool = Submit pool {| task_ev := ev; task_query := query |})
  /\ (forall pool',
        processMention ev pool = Returned pool' ->
        (query = "" /\ pool' = pool)
        \/ (query <> "" /\ tasks pool' = tasks pool ++ [{| task_ev := ev; task_query := query |}])).
Proof.
  intros token query.
  assert (Hq : query = cleanQuery ev) by reflexivity.
  repeat split.
  - intros rest Ht Habs. unfold query. rewrite Ht.
    rewrite ReplaceAll_leading; [reflexivity|discriminate|exact Habs].
  - intros He. unfold processMention. rewrite <- Hq, He. reflexivity.
  - intros Hne. unfold processMention. rewrite <- Hq.
    apply String.eqb_neq in Hne. rewrite Hne. reflexivity.
  - intros pool'. unfold processMention. rewrite <- Hq.
    destruct (String.eqb_spec query "") as [He|Hne].
    + intros [= <-]. now left.
    + unfold Submit. destruct (closed pool); [discriminate|].
      destruct (Nat.ltb _ _); [|discriminate].
      intros [= <-]. right. split; [exact Hne|reflexivity].
Qed.

(** The mention of the tests: [<@B456>   What is Go?]. *)
Lemma C5_mention_dispatch_witness :
  processMention (AppMentionEvent.mk "U123" "C123" "<@B456>   What is Go?" "B456")
                 (NewWorkerPool 1)
  = Submit (NewWorkerPool 1)
           {| task_ev := AppMentionEvent.mk "U123" "C123" "<@B456>   What is Go?" "B456";
              task_query := "What is Go?" |}.
Proof.
  refine (proj1 (proj2 (proj2
            (C5_mention_dispatch
               (AppMentionEvent.mk "U123" "C123" "<@B456>   What is Go?" "B456")
               (NewWorkerPool 1)))) _).
  vm_compute. discriminate.
Defined.

(** C5 as stated fails twice.  A mention without a bot identifier is not
    dropped: its task is queued.  A token that is not leading is stripped
    as well. *)
Lemma C5_counterexample :
  let ev1 := AppMentionEvent.mk "U1" "C1" "hello" "" in
  let ev2 := AppMentionEvent.mk "U1" "C1" "<@B456> ping <@B456>" "B456" in
  spec_mention_query ev1 = None
  /\ processMention ev1 (NewWorkerPool 1)
     = Returned {| tasks := [{| task_ev := ev1; task_query := "hello" |}];
                   capacity := 2; closed := false; workers := [Idle] |}
  /\ spec_mention_query ev2 = Some "ping <@B456>"
  /\ processMention ev2 (NewWorkerPool 1)
     = Returned {| tasks := [{| task_ev := ev2; task_query := "ping" |}];
                   capacity := 2; closed := false; workers := [Idle] |}.
Proof. cbv zeta. repeat split; vm_compute; reflexivity. Qed.

(** Every task [processMention] queues carries a query that is not empty
    after trimming. *)
Lemma processMention_query_not_blank (ev : AppMentionEvent.t) (pool pool' : WorkerPool) :
  processMention ev pool = Returned pool' ->
  pool' = pool
  \/ exists t, tasks pool' = tasks pool ++ [t]
               /\ task_query t = cleanQuery ev
               /\ strings.TrimSpace (task_query t) <> "".
Proof.
  unfold processMention.
  destruct (String.eqb_spec (cleanQuery ev) "") as [He|Hne].
  - intros [= <-]. now left.
  - unfold Submit. destruct (closed pool); [discriminate|].
    destruct (Nat.ltb _ _); [|discriminate].
    intros [= <-]. right. eexists. repeat split. simpl.
    unfold cleanQuery in *. now rewrite TrimSpace_idempotent.
Qed.

(** A direct message is queued, with its text as it is for a query, when it
    has no bot identifier, a text that is not the empty string and the
    channel type [im]; any other is dropped and leaves the pool as it was. *)
Lemma processDirectMessage_dispatch (ev : MessageEvent.t) (pool : WorkerPool) :
  processDirectMessage ev pool
  = if String.eqb (MessageEvent.BotID ev) ""
       && negb (String.eqb (MessageEvent.Text ev) "")
       && String.eqb (MessageEvent.ChannelType ev) "im"
    then Submit pool
           {| task_ev := AppMentionEvent.mk (MessageEvent.User ev) (MessageEvent.Channel ev)
                                            (MessageEvent.Text ev) "";
              task_query := MessageEvent.Text ev |}
    else Returned pool.
Proof.
  unfold processDirectMessage.
  destruct (String.eqb (MessageEvent.BotID ev) ""),
           (String.eqb (MessageEvent.Text ev) ""),
           (String.eqb (MessageEvent.ChannelType ev) "im"); reflexivity.
Qed.

(** C6, where the code departs from it.  For every direct message from a
    user in a one-to-one channel whose text is white space only (not the
    empty string), the guard on an empty [ev.Text] lets it through: on a
    pool that is open and has room a task is queued for it, and the query
    of that task is the text as it is, empty after trimming.
    ([processMention] trims before it tests: see
    [processMention_query_not_blank].) *)
Theorem C6_blank_direct_message_is_queued (ev : MessageEvent.t) (pool : WorkerPool) :
  MessageEvent.BotID ev = "" ->
  MessageEvent.ChannelType ev = "im" ->
  MessageEvent.Text ev <> "" ->
  strings.TrimSpace (MessageEvent.Text ev) = "" ->
  closed pool = false ->
  length (tasks pool) < capacity pool ->
  exists pool' t,
    processDirectMessage ev pool = Returned pool'
    /\ tasks pool' = tasks pool ++ [t]
    /\ task_query t = MessageEvent.Text ev
    /\ strings.TrimSpace (task_query t) = "".
Proof.
  intros Hb Hi Ht Hblank Hc Hroom.
  rewrite processDirectMessage_dispatch, Hb, Hi.
  apply String.eqb_neq in Ht. rewrite Ht. simpl.
  unfold Submit. rewrite Hc.
  apply Nat.ltb_lt in Hroom. rewrite Hroom.
  eexists. eexists. repeat split. exact Hblank.
Qed.

(** A direct message that is one space. *)
Lemma C6_blank_direct_message_is_queued_witness :
  exists pool' t,
    processDirectMessage (MessageEvent.mk "U1" "D1" " " "" "im") (NewWorkerPool 1)
    = Returned pool'
    /\ tasks pool' = tasks (NewWorkerPool 1) ++ [t]
    /\ task_query t = " "
    /\ strings.TrimSpace (task_query t) = "".
Proof.
  apply (C6_blank_direct_message_is_queued
           (MessageEvent.mk "U1" "D1" " " "" "im") (NewWorkerPool 1)).
  - reflexivity.
  - reflexivity.
  - discriminate.
  - reflexivity.
  - reflexivity.
  - simpl. lia.
Defined.

(** * The code around the claims: lemmas and theorems *)

(** ** The worker pool: bounds *)

Lemma inflight_length (ws : list WorkerState) : length (inflight ws) <= length ws.
Proof.
  induction ws as [|w ws IH]; simpl; [lia|].
  destruct w; simpl; lia.
Qed.

(** The capacity of the channel is fixed, and the queue stays within it. *)
Lemma step_capacity (p : WorkerPool) (a : Action) (p' : WorkerPool) (d : list Task) :
  step_view p a p' d ->
  capacity p' = capacity p
  /\ (length (tasks p) <= capacity p -> length (tasks p') <= capacity p').
Proof.
  intros [t Hc Hl|Hc|l1 l2 t q Hw Ht|l1 l2 t Hw|l1 l2 Hw Ht Hc]; simpl;
    (split; [reflexivity|]); intros Hb;
    rewrite ?length_app, ?Ht in *; simpl in *; lia.
Qed.

Lemma exec_capacity (acts : list Action) :
  forall p p' done,
    exec p acts = Some (Alive p', done) ->
    capacity p' = capacity p
    /\ (length (tasks p) <= capacity p -> length (tasks p') <= capacity p').
Proof.
  induction acts as [|a rest IH]; intros p p' done H.
  - injection H as <- <-. auto.
  - destruct (exec_cons _ _ _ _ _ H) as (p1 & d1 & d2 & Hs & He & ->).
    destruct (step_capacity _ _ _ _ Hs) as [Hc1 Hb1].
    destruct (IH _ _ _ He) as [Hc2 Hb2].
    split; [congruence|auto].
Qed.

(** X1.  In every state a pool of N workers reaches, there are N worker
    goroutines, at most N tasks are running, and at most 2N tasks wait in
    the channel, whose capacity stays 2N. *)
Theorem X1_pool_bounds (N : nat) (acts : list Action) (p : WorkerPool) (done : list Task) :
  exec (NewWorkerPool N) acts = Some (Alive p, done) ->
  length (workers p) = N
  /\ length (inflight (workers p)) <= N
  /\ capacity p = 2 * N
  /\ length (tasks p) <= 2 * N.
Proof.
  intros Hrun.
  destruct (exec_invariant _ _ _ _ Hrun (NewWorkerPool_drained N)) as [_ Hlen].
  destruct (exec_capacity _ _ _ _ Hrun) as [Hcap Hq].
  simpl in Hlen, Hcap, Hq. rewrite repeat_length in Hlen.
  repeat split.
  - exact Hlen.
  - rewrite <- Hlen. apply inflight_length.
  - lia.
  - rewrite Hcap in Hq. specialize (Hq (Nat.le_0_l _)). lia.
Qed.

Lemma X1_pool_bounds_witness :
  length (workers PoolSample.pool) = 1
  /\ length (inflight (workers PoolSample.pool)) <= 1
  /\ capacity PoolSample.pool = 2 * 1
  /\ length (tasks PoolSample.pool) <= 2 * 1.
Proof.
  exact (X1_pool_bounds 1 PoolSample.schedule PoolSample.pool [PoolSample.t1] eq_refl).
Defined.

(** X2.  On an open pool of N workers [Submit] blocks exactly when 2N tasks
    wait in the channel; with fewer it returns, and the task is the last of
    the queue. *)
Theorem X2_submit_blocks_when_full (N : nat) (acts : list Action) (p : WorkerPool)
    (done : list Task) (t : Task) :
  exec (NewWorkerPool N) acts = Some (Alive p, done) ->
  closed p = false ->
  (Submit p t = Blocked <-> length (tasks p) = 2 * N)
  /\ (length (tasks p) < 2 * N ->
      exists p', Submit p t = Returned p' /\ tasks p' = tasks p ++ [t]
                 /\ workers p' = workers p /\ closed p' = false).
Proof.
  intros Hrun Hc.
  destruct (exec_capacity _ _ _ _ Hrun) as [Hcap Hq].
  simpl in Hcap, Hq. specialize (Hq (Nat.le_0_l _)).
  unfold Submit. rewrite Hc, Hcap.
  destruct (Nat.ltb_spec (length (tasks p)) (N * 2)) as [Hlt|Hge].
  - split; [split; [discriminate|lia]|].
    intros _. eexists. repeat split.
  - split; [split; [lia|reflexivity]|lia].
Qed.

(** A pool of one worker with two tasks in the channel is full. *)
Lemma X2_submit_blocks_when_full_witness :
  Submit {| tasks := [PoolSample.t1; PoolSample.t2]; capacity := 2; closed := false;
            workers := [Idle] |} PoolSample.t1 = Blocked.
Proof.
  apply (proj1 (X2_submit_blocks_when_full 1 [ASubmit PoolSample.t1; ASubmit PoolSample.t2]
                  {| tasks := [PoolSample.t1; PoolSample.t2]; capacity := 2;
                     closed := false; workers := [Idle] |} [] PoolSample.t1
                  eq_refl eq_refl)).
  reflexivity.
Defined.

(** ** The worker pool: order *)

Lemma exec_cons_step (p : WorkerPool) (a : Action) (rest : list Action)
    (p' : WorkerPool) (done : list Task) :
  exec p (a :: rest) = Some (Alive p', done) ->
  exists p1 d1 d2,
    step p a = Some (Alive p1, d1) /\ exec p1 rest = Some (Alive p', d2)
    /\ done = d1 ++ d2.
Proof.
  simpl. destruct (step p a) as [[[p1|m] d1]|] eqn:Hs.
  - destruct (exec p1 rest) as [[prog d2]|] eqn:He; [|discriminate].
    intros [= -> <-]. exists p1, d1, d2. auto.
  - destruct rest; discriminate.
  - discriminate.
Qed.

(** X3.  The channel is first in, first out: along every schedule the tasks
    the workers have received, in the order of the receives, followed by the
    tasks still in the channel, are the tasks handed in, in the order of
    the calls of [Submit]. *)
Theorem X3_tasks_received_in_submission_order (N : nat) (acts : list Action)
    (p : WorkerPool) (done : list Task) :
  exec (NewWorkerPool N) acts = Some (Alive p, done) ->
  received (NewWorkerPool N) acts ++ tasks p = submitted acts.
Proof.
  change (submitted acts) with (tasks (NewWorkerPool N) ++ submitted acts).
  generalize (NewWorkerPool N) as p0. revert p done.
  induction acts as [|a rest IH]; intros p done p0 H.
  - injection H as <- <-. simpl. now rewrite app_nil_r.
  - destruct (exec_cons_step _ _ _ _ _ H) as (p1 & d1 & d2 & Hs & He & ->).
    specialize (IH _ _ _ He). rewrite submitted_cons.
    cbn [received]. rewrite Hs.
    destruct (step_inv _ _ _ _ Hs) as [t Hc Hl|Hc|l1 l2 t q Hw Ht|l1 l2 t Hw|l1 l2 Hw Ht Hc];
      simpl in *.
    + rewrite IH, <- app_assoc. reflexivity.
    + exact IH.
    + rewrite Ht. simpl. now rewrite IH.
    + destruct (tasks p0); exact IH.
    + rewrite Ht in *. exact IH.
Qed.

Lemma X3_tasks_received_in_submission_order_witness :
  received (NewWorkerPool 1) PoolSample.schedule ++ tasks PoolSample.pool
  = submitted PoolSample.schedule.
Proof.
  exact (X3_tasks_received_in_submission_order 1 PoolSample.schedule PoolSample.pool
           [PoolSample.t1] eq_refl).
Defined.

Lemma single_worker (l1 l2 : list WorkerState) (w : WorkerState) (ws : list WorkerState) :
  length ws = 1 -> ws = l1 ++ w :: l2 -> l1 = [] /\ l2 = [].
Proof.
  intros Hlen ->. rewrite length_app in Hlen. simpl in Hlen.
  destruct l1, l2; simpl in Hlen; try lia. auto.
Qed.

Lemma exec_single_worker (acts : list Action) :
  forall p p' done,
    exec p acts = Some (Alive p', done) ->
    length (workers p) = 1 ->
    done ++ inflight (workers p') ++ tasks p'
    = inflight (workers p) ++ tasks p ++ submitted acts.
Proof.
  induction acts as [|a rest IH]; intros p p' done H Hone.
  - injection H as <- <-. simpl. now rewrite app_nil_r.
  - destruct (exec_cons _ _ _ _ _ H) as (p1 & d1 & d2 & Hs & He & ->).
    rewrite submitted_cons.
    assert (Hone1 : length (workers p1) = 1).
    { destruct Hs as [t Hc Hl|Hc|l1 l2 t q Hw Ht|l1 l2 t Hw|l1 l2 Hw Ht Hc]; simpl;
        try assumption; rewrite Hw, length_app in Hone; rewrite length_app; exact Hone. }
    specialize (IH _ _ _ He Hone1). rewrite <- app_assoc, IH.
    destruct Hs as [t Hc Hl|Hc|l1 l2 t q Hw Ht|l1 l2 t Hw|l1 l2 Hw Ht Hc]; simpl.
    + now rewrite <- !app_assoc.
    + reflexivity.
    + destruct (single_worker l1 l2 Idle _ Hone Hw) as [-> ->].
      rewrite Hw, Ht. reflexivity.
    + destruct (single_worker l1 l2 (Running t) _ Hone Hw) as [-> ->].
      rewrite Hw. reflexivity.
    + destruct (single_worker l1 l2 Idle _ Hone Hw) as [-> ->].
      rewrite Hw, Ht. reflexivity.
Qed.

(** X4.  A pool of one worker runs the tasks in the order they were handed
    in: along every schedule the tasks that have finished, then the task
    that is running, then the tasks in the channel are the tasks handed in,
    in the order of the calls of [Submit]. *)
Theorem X4_single_worker_runs_in_order (acts : list Action) (p : WorkerPool)
    (done : list Task) :
  exec (NewWorkerPool 1) acts = Some (Alive p, done) ->
  done ++ inflight (workers p) ++ tasks p = submitted acts.
Proof.
  intros H. exact (exec_single_worker _ _ _ _ H eq_refl).
Qed.

Lemma X4_single_worker_runs_in_order_witness :
  [PoolSample.t1] ++ inflight (workers PoolSample.pool) ++ tasks PoolSample.pool
  = submitted PoolSample.schedule.
Proof.
  exact (X4_single_worker_runs_in_order PoolSample.schedule PoolSample.pool
           [PoolSample.t1] eq_refl).
Defined.

(** ** The worker pool: its ends *)

Lemma exec_no_workers (acts : list Action) :
  forall p p' done,
    exec p acts = Some (Alive p', done) ->
    workers p = [] -> capacity p = 0 ->
    submitted acts = [] /\ done = [] /\ workers p' = [] /\ capacity p' = 0.
Proof.
  induction acts as [|a rest IH]; intros p p' done H Hw Hcap.
  - injection H as <- <-. auto.
  - destruct (exec_cons _ _ _ _ _ H) as (p1 & d1 & d2 & Hs & He & ->).
    rewrite submitted_cons.
    destruct Hs as [t Hc Hl|Hc|l1 l2 t q Hw' Ht|l1 l2 t Hw'|l1 l2 Hw' Ht Hc];
      try (rewrite Hw in Hw'; destruct l1; discriminate).
    + lia.
    + apply (IH _ _ _ He); assumption.
Qed.

(** X5.  A pool made with no worker takes no task: along every schedule
    nothing is handed in and nothing runs, [Submit] blocks as long as the
    channel is open, and [Shutdown] returns as soon as it has closed it. *)
Theorem X5_pool_without_workers (acts : list Action) (p : WorkerPool) (done : list Task) :
  exec (NewWorkerPool 0) acts = Some (Alive p, done) ->
  submitted acts = [] /\ done = []
  /\ (closed p = false -> forall t, Submit p t = Blocked)
  /\ (closed p = true -> Shutdown_returned p = true).
Proof.
  intros H.
  destruct (exec_no_workers _ _ _ _ H eq_refl eq_refl) as (Hs & Hd & Hw & Hcap).
  repeat split; try assumption.
  - intros Hc t. unfold Submit. rewrite Hc, Hcap. reflexivity.
  - intros Hc. unfold Shutdown_returned, wg_zero. rewrite Hc, Hw. reflexivity.
Qed.

Lemma X5_pool_without_workers_witness :
  Shutdown_returned {| tasks := []; capacity := 0; closed := true; workers := [] |} = true.
Proof.
  exact (proj2 (proj2 (proj2
           (X5_pool_without_workers [AClose]
              {| tasks := []; capacity := 0; closed := true; workers := [] |} []
              eq_refl))) eq_refl).
Defined.

(** X6.  [Shutdown] cannot be called twice: on every pool whose channel a
    first [Shutdown] has closed, a second one panics with the runtime error
    of closing a closed channel, and the program ends there. *)
Theorem X6_second_shutdown_panics (N : nat) (acts : list Action) (p : WorkerPool)
    (done : list Task) :
  exec (NewWorkerPool N) acts = Some (Alive p, done) ->
  In AClose acts ->
  close p = Panicked "close of closed channel"
  /\ exec p [AClose] = Some (Crashed "close of closed channel", [])
  /\ forall a more, exec p (AClose :: a :: more) = None.
Proof.
  intros Hrun Hin.
  pose proof (exec_after_close _ _ _ _ Hrun Hin) as Hc.
  assert (Hp : close p = Panicked "close of closed channel")
    by (unfold close; now rewrite Hc).
  repeat split.
  - exact Hp.
  - simpl. now rewrite Hp.
  - intros a more. simpl. now rewrite Hp.
Qed.

Lemma X6_second_shutdown_panics_witness :
  exec PoolSample.pool [AClose] = Some (Crashed "close of closed channel", []).
Proof.
  refine (proj1 (proj2 (X6_second_shutdown_panics 1 PoolSample.schedule PoolSample.pool
                          [PoolSample.t1] eq_refl _))).
  simpl. auto 10.
Defined.

(** The channel is closed by [close(p.tasks)] only. *)
Lemma exec_closed_by_close (acts : list Action) :
  forall p p' done,
    exec p acts = Some (Alive p', done) ->
    closed p = false -> closed p' = true -> In AClose acts.
Proof.
  induction acts as [|a rest IH]; intros p p' done H Hopen Hc.
  - injection H as <- <-. congruence.
  - destruct (exec_cons _ _ _ _ _ H) as (p1 & d1 & d2 & Hs & He & ->).
    destruct Hs as [t Hc' Hl|Hc'|l1 l2 t q Hw Ht|l1 l2 t Hw|l1 l2 Hw Ht Hc'];
      try (now left); try congruence;
      right; apply (IH _ _ _ He); simpl; first [assumption|reflexivity].
Qed.

(** X7.  A worker goroutine ends only through [Shutdown]: in every state a
    pool reaches, a worker that has left its loop means that the channel
    has been closed by the schedule and is empty. *)
Theorem X7_workers_end_only_after_shutdown (N : nat) (acts : list Action)
    (p : WorkerPool) (done : list Task) :
  exec (NewWorkerPool N) acts = Some (Alive p, done) ->
  In Exited (workers p) ->
  In AClose acts /\ closed p = true /\ tasks p = [].
Proof.
  intros Hrun Hex.
  destruct (exec_invariant _ _ _ _ Hrun (NewWorkerPool_drained N)) as [Hd _].
  destruct (Hd Hex) as [Hc Ht].
  repeat split; try assumption.
  exact (exec_closed_by_close _ _ _ _ Hrun eq_refl Hc).
Qed.

Lemma X7_workers_end_only_after_shutdown_witness :
  In AClose (PoolSample.schedule ++ PoolSample.rest)
  /\ closed PoolSample.drained_pool = true /\ tasks PoolSample.drained_pool = [].
Proof.
  refine (X7_workers_end_only_after_shutdown 1 (PoolSample.schedule ++ PoolSample.rest)
            PoolSample.drained_pool [PoolSample.t1; PoolSample.t2] eq_refl _).
  left. reflexivity.
Defined.

(** ** [processTask]: what every run does *)






(** The record of one line decides what the loop body does with it. *)
Lemma stream_line_run (E : Env) (channel line : string) (now : Z) :
  stream_line E channel line now
  = match record_of E line with
    | Some (Fragment text) => (tt, (now + 500)%Z, paced channel text)
    | _ => (tt, now, [])
    end.
Proof.
  unfold stream_line, record_of.
  destruct (strings.HasPrefix line "data: "); [|reflexivity].
  destruct (json_Unmarshal E (strings.TrimPrefix line "data: ")) as [msg|]; [|reflexivity].
  destruct (String.eqb (ChatResponse.Event msg) "message_part"); [reflexivity|].
  destruct (String.eqb (ChatResponse.Event msg) "stream_end"); reflexivity.
Qed.

Lemma fragment_texts_cons (E : Env) (line : string) (rest : list string) :
  fragment_texts E (line :: rest)
  = match record_of E line with
    | Some (Fragment text) => text :: fragment_texts E rest
    | _ => fragment_texts E rest
    end.
Proof.
  unfold fragment_texts. simpl.
  destruct (record_of E line) as [[text|status]|]; reflexivity.
Qed.

(** While the context stays alive every fragment is sent and paced. *)
Lemma stream_loop_alive (E : Env) (channel : string) (lines : list string) :
  cancelled_at E = None ->
  forall now, snd (stream_loop E channel lines now)
              = flat_map (paced channel) (fragment_texts E lines).
Proof.
  intros Hc. induction lines as [|line rest IH]; intros now; [reflexivity|].
  rewrite fragment_texts_cons. simpl. unfold bind at 1. unfold ctx_done. rewrite Hc.
  unfold bind. rewrite stream_line_run.
  destruct (record_of E line) as [[text|status]|];
    match goal with
    | |- context [stream_loop E channel rest ?n] =>
        specialize (IH n); destruct (stream_loop E channel rest n) as [[u t2] l2]
    end; simpl in *; rewrite IH; reflexivity.
Qed.

Lemma let_through_none (c now : Z) : (c <= now)%Z -> let_through c now = 0.
Proof.
  intros H. unfold let_through.
  assert ((c - now + 499) / 500 < 1)%Z by (apply Z.div_lt_upper_bound; lia).
  lia.
Qed.

Lemma let_through_next (c now : Z) :
  (now < c)%Z -> let_through c now = S (let_through c (now + 500)).
Proof.
  intros H. unfold let_through.
  replace (c - now + 499)%Z with (c - (now + 500) + 499 + 1 * 500)%Z by lia.
  rewrite Z.div_add by lia.
  assert (0 <= (c - (now + 500) + 499) / 500)%Z by (apply Z.div_pos; lia).
  rewrite Z2Nat.inj_add by lia. simpl. lia.
Qed.

(** A cancelled context ends the loop in front of the first line read at
    or after the cancellation. *)
Lemma stream_loop_cut (E : Env) (channel : string) (lines : list string) (c : Z) :
  cancelled_at E = Some c ->
  forall now, snd (stream_loop E channel lines now)
              = flat_map (paced channel)
                  (firstn (let_through c now) (fragment_texts E lines)).
Proof.
  intros Hc. induction lines as [|line rest IH]; intros now.
  - simpl. now rewrite firstn_nil.
  - rewrite fragment_texts_cons. simpl. unfold bind at 1. unfold ctx_done. rewrite Hc.
    destruct (Z.leb_spec c now) as [Hle|Hlt].
    + rewrite (let_through_none _ _ Hle). reflexivity.
    + unfold bind. rewrite stream_line_run.
      destruct (record_of E line) as [[text|status]|].
      * rewrite (let_through_next _ _ Hlt).
        specialize (IH (now + 500)%Z).
        destruct (stream_loop E channel rest (now + 500)%Z) as [[u t2] l2].
        simpl in *. rewrite IH. reflexivity.
      * specialize (IH now). destruct (stream_loop E channel rest now) as [[u t2] l2].
        simpl in *. exact IH.
      * specialize (IH now). destruct (stream_loop E channel rest now) as [[u t2] l2].
        simpl in *. exact IH.
Qed.

Lemma post_chunks_paced (channel : string) (chunks : list string) :
  forall now, snd (post_chunks channel chunks now)
              = flat_map (paced channel) (sent_chunks chunks).
Proof.
  induction chunks as [|chunk rest IH]; intros now; [reflexivity|].
  unfold sent_chunks in *. simpl. unfold bind at 1.
  destruct (String.eqb (strings.TrimSpace chunk) ""); simpl;
    match goal with
    | |- context [post_chunks channel rest ?n] =>
        specialize (IH n); destruct (post_chunks channel rest n) as [[u t2] l2]
    end; simpl in *; rewrite IH; reflexivity.
Qed.

(** Whatever the response and the context, the response phase is a list of
    fragments, each sent to the channel and paced. *)
Lemma switch_content_type_paced (E : Env) (channel : string) (resp : Response.t) (now : Z) :
  exists texts,
    snd (switch_content_type E channel resp now) = flat_map (paced channel) texts.
Proof.
  unfold switch_content_type.
  destruct (String.eqb (Response.ContentType resp) "text/event-stream").
  - destruct (cancelled_at E) as [c|] eqn:Hc.
    + eexists. apply (stream_loop_cut _ _ _ _ Hc).
    + eexists. apply (stream_loop_alive _ _ _ Hc).
  - destruct (json_Decode E (Response.Body resp)) as [result|].
    + eexists. apply post_chunks_paced.
    + exists []. reflexivity.
Qed.

Lemma posts_paced (channel : string) (texts : list string) :
  posts (flat_map (paced channel) texts) = map (pair channel) texts.
Proof. induction texts as [|t ts IH]; simpl; [reflexivity|now rewrite IH]. Qed.

Lemma connect_posts (E : Env) (ev : AppMentionEvent.t) (query : string)
    (last : option DoResult) (t : Z) (l : list Effect) :
  connect E ev query 0%Z = (last, t, l) -> posts l = [].
Proof.
  intros H. pose proof (retry_loop_posts E (request ev query) 3 0 None 0%Z) as Hr.
  unfold connect in H. rewrite H in Hr. exact Hr.
Qed.

(** The sink calls of a task. *)
Lemma processTask_posts_channel (E : Env) (ev : AppMentionEvent.t) (query : string) :
  Forall (fun post => fst post = AppMentionEvent.Channel ev)
         (posts (run (processTask E ev query))).
Proof.
  destruct (connect E ev query 0%Z) as [[last t] l] eqn:Hconn.
  rewrite (run_processTask _ _ _ _ _ _ Hconn), posts_app, (connect_posts _ _ _ _ _ _ Hconn).
  simpl. destruct last as [[e|resp]|]; simpl.
  - repeat constructor.
  - destruct (switch_content_type_paced E (AppMentionEvent.Channel ev) resp t) as [texts Ht].
    rewrite Ht, posts_paced. apply Forall_forall. intros post Hin.
    apply in_map_iff in Hin. destruct Hin as (x & <- & _). reflexivity.
  - constructor.
Qed.

(** X9.  A task calls the sink with the channel of its event and with no
    other channel, whatever the backend answers. *)
Theorem X9_replies_go_to_the_event_channel (E : Env) (ev : AppMentionEvent.t)
    (query : string) :
  Forall (fun post => fst post = AppMentionEvent.Channel ev)
         (posts (run (processTask E ev query))).
Proof. exact (processTask_posts_channel E ev query). Qed.

(** X10.  Once the backend has answered, a task does nothing but send
    fragments, and it sleeps 500 ms behind each of them, the last one
    included: its effects are those of the connection followed by a sink
    call and a sleep for every fragment. *)
Theorem X10_every_fragment_is_paced (E : Env) (ev : AppMentionEvent.t) (query : string)
    (resp : Response.t) (t : Z) (l : list Effect) :
  connect E ev query 0%Z = (Some (Resp resp), t, l) ->
  run (processTask E ev query)
  = l ++ flat_map (fun text => [PostMessage (AppMentionEvent.Channel ev) text; Sleep 500])
                  (fragments (run (processTask E ev query))).
Proof.
  intros Hconn.
  rewrite (run_processTask _ _ _ _ _ _ Hconn). simpl.
  destruct (switch_content_type_paced E (AppMentionEvent.Channel ev) resp t) as [texts Ht].
  rewrite Ht. f_equal.
  unfold fragments. rewrite posts_app, (connect_posts _ _ _ _ _ _ Hconn), posts_paced.
  simpl. rewrite map_map. simpl. now rewrite map_id.
Qed.

Lemma X10_every_fragment_is_paced_witness :
  run (processTask (Sample.env (fun _ _ => Resp (Sample.single 200)) None) Sample.ev "foo")
  = [HttpDo 0 (ChatRequest.mk "U1" "foo" "C1")]
    ++ flat_map (fun text => [PostMessage "C1" text; Sleep 500])
         (fragments (run (processTask (Sample.env (fun _ _ => Resp (Sample.single 200)) None)
                                      Sample.ev "foo"))).
Proof.
  exact (X10_every_fragment_is_paced
           (Sample.env (fun _ _ => Resp (Sample.single 200)) None) Sample.ev "foo"
           (Sample.single 200) 0%Z [HttpDo 0 (ChatRequest.mk "U1" "foo" "C1")] eq_refl).
Defined.

(** X11.  A context cancelled at instant [c] during a streamed response cuts
    the stream between two fragments: with the response received at instant
    [t], the fragments sent are the first ones of the stream, one for every
    500 ms begun between [t] and [c], and nothing behind them. *)
Theorem X11_cancellation_cuts_the_stream (E : Env) (ev : AppMentionEvent.t)
    (query : string) (resp : Response.t) (t c : Z) (l : list Effect) :
  connect E ev query 0%Z = (Some (Resp resp), t, l) ->
  Response.ContentType resp = "text/event-stream" ->
  cancelled_at E = Some c ->
  fragments (run (processTask E ev query))
  = firstn (Z.to_nat ((c - t + 499) / 500))
           (fragment_texts E (bufio.ScanLines (Response.Body resp))).
Proof.
  intros Hconn Hct Hc.
  unfold fragments.
  rewrite (run_processTask _ _ _ _ _ _ Hconn), posts_app, (connect_posts _ _ _ _ _ _ Hconn).
  simpl. unfold switch_content_type. rewrite Hct. simpl.
  rewrite (stream_loop_cut _ _ _ _ Hc), posts_paced, map_map. simpl.
  now rewrite map_id.
Qed.

(** The stream "x", "y", cancelled 200 ms into the pause behind "x". *)
Lemma X11_cancellation_cuts_the_stream_witness :
  fragments (run (processTask (Sample.env (fun _ _ => Resp Sample.stream_xy_end) (Some 200%Z))
                              Sample.ev "foo"))
  = ["x"].
Proof.
  exact (X11_cancellation_cuts_the_stream
           (Sample.env (fun _ _ => Resp Sample.stream_xy_end) (Some 200%Z)) Sample.ev "foo"
           Sample.stream_xy_end 0%Z 200%Z [HttpDo 0 (ChatRequest.mk "U1" "foo" "C1")]
           eq_refl eq_refl eq_refl).
Defined.

(** ** [processTask] and [mockBackend] *)

Lemma append_assoc (a b c : string) : ((a ++ b) ++ c)%string = (a ++ (b ++ c))%string.
Proof. induction a as [|x a IH]; simpl; [reflexivity|now rewrite IH]. Qed.

Lemma append_empty (a : string) : (a ++ "")%string = a.
Proof. induction a as [|x a IH]; simpl; [reflexivity|now rewrite IH]. Qed.

Lemma has_byte_append (b : ascii) (s1 s2 : string) :
  has_byte b (s1 ++ s2) = has_byte b s1 || has_byte b s2.
Proof.
  induction s1 as [|c s1 IH]; simpl; [reflexivity|].
  rewrite IH. apply orb_assoc.
Qed.

(** The scanner reads a line up to its line feed. *)
Lemma scan_line (s : string) :
  has_byte "010"%char s = false ->
  forall cur rest,
    bufio.scan cur (s ++ String "010"%char rest)
    = if bufio.fits (cur ++ s) then bufio.dropCR (cur ++ s) :: bufio.scan "" rest else [].
Proof.
  induction s as [|c s IH]; intros Hs cur rest.
  - simpl. now rewrite append_empty.
  - simpl in Hs. apply orb_false_iff in Hs. destruct Hs as [Hc Hs].
    simpl. rewrite Hc, (IH Hs), append_assoc. reflexivity.
Qed.

Lemma rev_head (line r : string) (c : ascii) :
  strings.rev line = String c r -> has_byte c line = true.
Proof.
  intros H. rewrite <- (rev_rev line), H.
  change (String c r) with (String c "" ++ r)%string.
  rewrite rev_append, has_byte_append.
  change (strings.rev (String c "")) with (String c "").
  simpl. rewrite Ascii.eqb_refl. apply orb_true_r.
Qed.

Lemma dropCR_plain (line : string) :
  has_byte "013"%char line = false -> bufio.dropCR line = line.
Proof.
  intros H. unfold bufio.dropCR.
  destruct (strings.rev line) as [|c r] eqn:Hr; [reflexivity|].
  apply rev_head in Hr.
  destruct (Ascii.eqb_spec c "013"%char) as [->|Hne]; [congruence|].
  destruct c as [[] [] [] [] [] [] [] []]; try reflexivity. congruence.
Qed.

(** Plain lines come back from the scanner one by one. *)
Lemma scan_unlines (lines : list string) (rest : string) :
  Forall plain_line lines ->
  bufio.scan "" (unlines lines rest) = lines ++ bufio.scan "" rest.
Proof.
  induction 1 as [|line lines (Hlf & Hcr & Hfit) _ IH]; [reflexivity|].
  simpl. rewrite (scan_line _ Hlf). simpl.
  rewrite Hfit, (dropCR_plain _ Hcr), IH. reflexivity.
Qed.

Lemma sse_frame_lines (C : Codec) (resp : ChatResponse.t) (rest : string) :
  (sse_frame C resp ++ rest)%string = unlines (frame_lines C resp) rest.
Proof.
  unfold sse_frame, frame_lines, unlines, nl. simpl.
  repeat (rewrite append_assoc; simpl). reflexivity.
Qed.

Lemma unlines_app (l1 l2 : list string) (rest : string) :
  unlines (l1 ++ l2) rest = unlines l1 (unlines l2 rest).
Proof. unfold unlines. apply fold_right_app. Qed.

(** The frames written one behind the other, line by line. *)
Lemma concat_frames (C : Codec) (resps : list ChatResponse.t) :
  String.concat "" (map (sse_frame C) resps)
  = unlines (flat_map (frame_lines C) resps) "".
Proof.
  induction resps as [|resp rest IH]; [reflexivity|].
  cbn [map flat_map]. rewrite unlines_app, <- IH, <- sse_frame_lines.
  destruct rest as [|resp' rest]; [symmetry; apply append_empty|reflexivity].
Qed.

Lemma plain_data_line (doc : string) : one_line doc -> plain_line ("data: " ++ doc).
Proof.
  intros (Hlf & Hcr & Hfit). repeat split; simpl; assumption.
Qed.

Lemma record_of_data (E : Env) (doc : string) (msg : ChatResponse.t) :
  json_Unmarshal E doc = Some msg ->
  record_of E ("data: " ++ doc)
  = if String.eqb (ChatResponse.Event msg) "message_part"
    then Some (Fragment (ChatResponse.Text msg))
    else if String.eqb (ChatResponse.Event msg) "stream_end"
    then Some (Terminal (ChatResponse.Status msg))
    else None.
Proof.
  intros H. unfold record_of, strings.TrimPrefix.
  rewrite (HasPrefix_app "data: " doc), (drop_app "data: " doc), H. reflexivity.
Qed.

(** The fragment of one frame: only its [data: ] line carries a record. *)
Lemma fragment_texts_frame (E : Env) (C : Codec) (resp : ChatResponse.t) :
  json_Unmarshal E (Marshal_response C resp) = Some resp ->
  fragment_texts E (frame_lines C resp)
  = if String.eqb (ChatResponse.Event resp) "message_part"
    then [ChatResponse.Text resp] else [].
Proof.
  intros H. unfold frame_lines. rewrite !fragment_texts_cons.
  rewrite (record_of_data E _ resp H).
  change (record_of E ("id: " ++ Itoa (ChatResponse.ID resp))) with (@None StreamRecord).
  change (record_of E ("event: " ++ ChatResponse.Event resp)) with (@None StreamRecord).
  change (record_of E "") with (@None StreamRecord).
  destruct (String.eqb (ChatResponse.Event resp) "message_part"); [reflexivity|].
  destruct (String.eqb (ChatResponse.Event resp) "stream_end"); reflexivity.
Qed.

Lemma fragment_texts_frames (E : Env) (C : Codec) (resps : list ChatResponse.t) :
  (forall resp, In resp resps -> json_Unmarshal E (Marshal_response C resp) = Some resp) ->
  fragment_texts E (flat_map (frame_lines C) resps)
  = flat_map (fun resp => if String.eqb (ChatResponse.Event resp) "message_part"
                          then [ChatResponse.Text resp] else []) resps.
Proof.
  induction resps as [|resp rest IH]; intros H; [reflexivity|].
  cbn [flat_map]. rewrite fragment_texts_app, fragment_texts_frame, IH.
  - reflexivity.
  - intros r Hin. apply H. now right.
  - apply H. now left.
Qed.

(** The lines of the streamed answer are plain when its documents are. *)
Lemma mock_lines_plain (C : Codec) (query : string) :
  (forall resp, In resp (mock_responses query) -> one_line (Marshal_response C resp)) ->
  Forall plain_line (flat_map (frame_lines C) (mock_responses query)).
Proof.
  intros H. unfold mock_responses in *. cbn [flat_map frame_lines app].
  repeat (apply Forall_cons || apply Forall_nil);
    try (apply plain_data_line, H; simpl; auto 10);
    repeat split; vm_compute; reflexivity.
Qed.

(** X12.  The bot against its own backend.  With a JSON codec that reads
    back the request of the task and the four records of [mockBackend], each
    written on one line, and a context that is not cancelled, a task gets
    the streamed answer on its first attempt and sends exactly three
    fragments, paced: the echo of its query and the two fixed sentences.
    The closing [stream_end] record sends nothing. *)
Theorem X12_task_against_mock_backend (C : Codec)
    (unmarshal decode : string -> option ChatResponse.t)
    (ev : AppMentionEvent.t) (query : string) :
  Decode_request C (Marshal_request C (request ev query)) = Some (request ev query) ->
  (forall resp, In resp (mock_responses query) ->
                unmarshal (Marshal_response C resp) = Some resp
                /\ one_line (Marshal_response C resp)) ->
  run (processTask (mock_env C unmarshal decode None) ev query)
  = [HttpDo 0 (request ev query);
     PostMessage (AppMentionEvent.Channel ev) ("Processing: " ++ query); Sleep 500;
     PostMessage (AppMentionEvent.Channel ev) "Goroutines are lightweight threads"; Sleep 500;
     PostMessage (AppMentionEvent.Channel ev) "They enable concurrent execution"; Sleep 500].
Proof.
  intros Hreq Hdoc.
  set (E := mock_env C unmarshal decode None).
  set (body := String.concat "" (map (sse_frame C) (mock_responses query))).
  assert (Hconn : connect E ev query 0%Z
                  = (Some (Resp (Response.mk 200 "text/event-stream" body)), 0%Z,
                     [HttpDo 0 (request ev query)])).
  { unfold connect. cbn [retry_loop]. unfold bind, http_Do, bind, ctx_done. cbn.
    unfold mockBackend. rewrite Hreq. reflexivity. }
  rewrite (run_processTask _ _ _ _ _ _ Hconn).
  change (snd (respond E (AppMentionEvent.Channel ev)
                 (Some (Resp (Response.mk 200 "text/event-stream" body))) 0%Z))
    with (snd (stream_loop E (AppMentionEvent.Channel ev) (bufio.scan "" body) 0%Z)).
  rewrite (stream_loop_alive E _ _ eq_refl).
  unfold body. rewrite concat_frames, scan_unlines.
  - change (bufio.scan "" "") with (@nil string). rewrite app_nil_r.
    rewrite fragment_texts_frames by (intros r Hin; apply (Hdoc r Hin)).
    reflexivity.
  - apply mock_lines_plain. intros r Hin. apply (Hdoc r Hin).
Qed.

(** The query [foo] of the user [U1] in the channel [C1]. *)
Lemma X12_task_against_mock_backend_witness :
  run (processTask (mock_env SampleCodec.codec SampleCodec.unmarshal SampleCodec.unmarshal None)
                   Sample.ev "foo")
  = [HttpDo 0 (ChatRequest.mk "U1" "foo" "C1");
     PostMessage "C1" "Processing: foo"; Sleep 500;
     PostMessage "C1" "Goroutines are lightweight threads"; Sleep 500;
     PostMessage "C1" "They enable concurrent execution"; Sleep 500].
Proof.
  apply (X12_task_against_mock_backend SampleCodec.codec SampleCodec.unmarshal
           SampleCodec.unmarshal Sample.ev "foo").
  - reflexivity.
  - intros resp [<-|[<-|[<-|[<-|[]]]]]; repeat split; vm_compute; reflexivity.
Defined.

(** ** From the event to the reply *)

Lemma Submit_returned (pool pool' : WorkerPool) (t : Task) :
  Submit pool t = Returned pool' ->
  tasks pool' = tasks pool ++ [t] /\ closed pool' = closed pool
  /\ workers pool' = workers pool /\ capacity pool' = capacity pool.
Proof.
  unfold Submit. destruct (closed pool); [discriminate|].
  destruct (Nat.ltb _ _); [|discriminate].
  intros [= <-]. auto.
Qed.





(** ** The event loop *)

Lemma handle_event_returned (evt : Event) (pool pool' : WorkerPool) (a : bool) :
  handle_event evt pool = (a, Returned pool') ->
  a = acked evt
  /\ tasks pool' = tasks pool ++ task_of evt /\ closed pool' = closed pool
  /\ workers pool' = workers pool /\ capacity pool' = capacity pool.
Proof.
  unfold handle_event, acked, task_of.
  destruct (evt_Type evt); [|intros [= <- <-]; rewrite app_nil_r; auto].
  destruct (evt_Data evt) as [e|]; [|intros [= <- <-]; rewrite app_nil_r; auto].
  destruct (api_Type e); [|intros [= <- <-]; rewrite app_nil_r; auto].
  destruct (InnerEvent e) as [ev|ev|]; [| |intros [= <- <-]; rewrite app_nil_r; auto].
  - unfold processMention. destruct (String.eqb (cleanQuery ev) "").
    + intros [= <- <-]. rewrite app_nil_r. auto.
    + intros [= <- Hs]. apply Submit_returned in Hs. tauto.
  - rewrite processDirectMessage_dispatch. destruct (_ && _).
    + intros [= <- Hs]. apply Submit_returned in Hs. tauto.
    + intros [= <- <-]. rewrite app_nil_r. auto.
Qed.

(** X15.  The event loop of [main] hands the events to the pool in the order
    they arrive.  When it gets through a list of events, the channel holds,
    behind what it held, one task for each event a dispatcher accepts, in
    the order of arrival, and nothing else of the pool has changed; every
    Events API event was acknowledged, whether a task was queued for it or
    not, and no other event was. *)
Theorem X15_event_loop_keeps_arrival_order (evts : list Event) (pool pool' : WorkerPool)
    (n : nat) :
  event_loop evts pool = (n, Returned pool') ->
  tasks pool' = tasks pool ++ flat_map task_of evts
  /\ n = length (filter acked evts)
  /\ closed pool' = closed pool /\ workers pool' = workers pool
  /\ capacity pool' = capacity pool.
Proof.
  revert pool n. induction evts as [|evt rest IH]; intros pool n.
  - intros [= <- <-]. simpl. rewrite app_nil_r. auto.
  - cbn [event_loop].
    destruct (handle_event evt pool) as [a [pool1| |msg]] eqn:Hh; try discriminate.
    destruct (event_loop rest pool1) as [m o] eqn:Hl.
    intros [= <- ->].
    destruct (handle_event_returned _ _ _ _ Hh) as (-> & Ht & Hc & Hw & Hcap).
    destruct (IH _ _ Hl) as (Ht' & -> & Hc' & Hw' & Hcap').
    cbn [flat_map filter]. rewrite Ht', Ht, <- app_assoc.
    repeat split; try congruence.
    destruct (acked evt); reflexivity.
Qed.

(** A direct message, a message in a shared channel and a mention. *)
Lemma X15_event_loop_keeps_arrival_order_witness :
  tasks EventSample.pool = tasks (NewWorkerPool 1) ++ flat_map task_of EventSample.events
  /\ 3 = length (filter acked EventSample.events)
  /\ closed EventSample.pool = closed (NewWorkerPool 1)
  /\ workers EventSample.pool = workers (NewWorkerPool 1)
  /\ capacity EventSample.pool = capacity (NewWorkerPool 1).
Proof.
  exact (X15_event_loop_keeps_arrival_order EventSample.events (NewWorkerPool 1)
           EventSample.pool 3 eq_refl).
Defined.

Lemma handle_event_blocked (evt : Event) (pool : WorkerPool) (a : bool) :
  handle_event evt pool = (a, Blocked) ->
  a = true /\ acked evt = true /\ (exists t, task_of evt = [t])
  /\ closed pool = false /\ capacity pool <= length (tasks pool).
Proof.
  assert (Hs : forall t, Submit pool t = Blocked ->
                         closed pool = false /\ capacity pool <= length (tasks pool)).
  { intros t. unfold Submit. destruct (closed pool); [discriminate|].
    destruct (Nat.ltb_spec (length (tasks pool)) (capacity pool)); [discriminate|auto]. }
  unfold handle_event, acked, task_of.
  destruct (evt_Type evt); [|discriminate].
  destruct (evt_Data evt) as [e|]; [|discriminate].
  destruct (api_Type e); [|discriminate].
  destruct (InnerEvent e) as [ev|ev|]; [| |discriminate].
  - unfold processMention. destruct (String.eqb (cleanQuery ev) ""); [discriminate|].
    intros [= <- Hb]. destruct (Hs _ Hb). eauto 10.
  - rewrite processDirectMessage_dispatch. destruct (_ && _); [|discriminate].
    intros [= <- Hb]. destruct (Hs _ Hb). eauto 10.
Qed.

(** X16.  Backpressure reaches the event loop.  When the loop blocks, it
    blocks in [Submit] for an event a dispatcher accepts, with the channel
    open and full of the tasks it held and those of the events before; that
    event has been acknowledged already, and the events behind it are
    neither acknowledged nor dispatched. *)
Theorem X16_event_loop_blocks_on_a_full_channel (evts : list Event) (pool : WorkerPool)
    (n : nat) :
  event_loop evts pool = (n, Blocked) ->
  exists before evt after t,
    evts = before ++ evt :: after
    /\ task_of evt = [t] /\ acked evt = true
    /\ n = length (filter acked before) + 1
    /\ closed pool = false
    /\ capacity pool <= length (tasks pool ++ flat_map task_of before).
Proof.
  revert pool n. induction evts as [|evt rest IH]; intros pool n; [discriminate|].
  cbn [event_loop].
  destruct (handle_event evt pool) as [a [pool1| |msg]] eqn:Hh.
  - destruct (event_loop rest pool1) as [m o] eqn:Hl.
    intros [= <- ->].
    destruct (handle_event_returned _ _ _ _ Hh) as (-> & Ht & Hc & Hw & Hcap).
    destruct (IH _ _ Hl) as (before & e & after & t & -> & Hto & Ha & -> & Hc' & Hfull).
    exists (evt :: before), e, after, t.
    cbn [flat_map filter]. rewrite Ht, <- app_assoc in Hfull.
    repeat split; try assumption; try congruence.
    destruct (acked evt); simpl; lia.
  - intros [= <-].
    destruct (handle_event_blocked _ _ _ Hh) as (-> & Ha & [t Ht] & Hc & Hfull).
    exists [], evt, rest, t. simpl. rewrite app_nil_r. auto 10.
  - discriminate.
Qed.

(** A full channel of one worker: the mention behind two direct messages
    blocks the loop. *)
Lemma X16_event_loop_blocks_on_a_full_channel_witness :
  exists before evt after t,
    (EventSample.callback (InnerMessage (MessageEvent.mk "U1" "D1" "hello" "" "im"))
     :: EventSample.events)
    = before ++ evt :: after
    /\ task_of evt = [t] /\ acked evt = true
    /\ 4 = length (filter acked before) + 1
    /\ closed (NewWorkerPool 1) = false
    /\ capacity (NewWorkerPool 1)
       <= length (tasks (NewWorkerPool 1) ++ flat_map task_of before).
Proof.
  exact (X16_event_loop_blocks_on_a_full_channel
           (EventSample.callback (InnerMessage (MessageEvent.mk "U1" "D1" "hello" "" "im"))
            :: EventSample.events)
           (NewWorkerPool 1) 4 eq_refl).
Defined.

(** ** Backoff before a late connection *)

(** X17.  While the context is alive, a connection that succeeds on attempt
    [k] (0, 1 or 2) after [k] failures costs the backoff sleeps of these
    failures and no more: 1 s, then 2 s; the reply follows the successful
    call at once, [500 * k * (k + 1)] ms after the start of the task. *)
Theorem X17_backoff_before_late_connection (E : Env) (ev : AppMentionEvent.t)
    (query : string) (k : nat) (resp : Response.t) :
  cancelled_at E = None ->
  k < 3 ->
  (forall j, j < k -> exists e, backend E (request ev query) j = ConnErr e) ->
  backend E (request ev query) k = Resp resp ->
  connect E ev query 0%Z
  = (Some (Resp resp), (500 * Z.of_nat k * (Z.of_nat k + 1))%Z,
     flat_map (fun j => [HttpDo j (request ev query); Sleep (Z.of_nat (j + 1) * 1000)])
              (seq 0 k)
     ++ [HttpDo k (request ev query)]).
Proof.
  intros Hc Hk Hfail Hresp.
  unfold connect. simpl. unfold bind, http_Do, bind, ctx_done. rewrite Hc. simpl.
  destruct k as [|[|[|k]]]; try lia.
  - rewrite Hresp. reflexivity.
  - destruct (Hfail 0) as [e0 H0]; [lia|]. rewrite H0, Hresp. reflexivity.
  - destruct (Hfail 0) as [e0 H0]; [lia|]. destruct (Hfail 1) as [e1 H1]; [lia|].
    rewrite H0, H1, Hresp. reflexivity.
Qed.

(** The backend refuses the first connection and answers the second. *)
Lemma X17_backoff_before_late_connection_witness :
  connect (Sample.env (fun _ n => match n with
                                  | O => ConnErr "connection refused"
                                  | _ => Resp (Sample.single 200)
                                  end) None) Sample.ev "foo" 0%Z
  = (Some (Resp (Sample.single 200)), 1000%Z,
     [HttpDo 0 (ChatRequest.mk "U1" "foo" "C1"); Sleep 1000;
      HttpDo 1 (ChatRequest.mk "U1" "foo" "C1")]).
Proof.
  apply (X17_backoff_before_late_connection
           (Sample.env (fun _ n => match n with
                                   | O => ConnErr "connection refused"
                                   | _ => Resp (Sample.single 200)
                                   end) None) Sample.ev "foo" 1 (Sample.single 200)).
  - reflexivity.
  - lia.
  - intros j Hj. exists "connection refused". destruct j; [reflexivity|lia].
  - reflexivity.
Defined.

(** ** A request [mockBackend] cannot read *)


